(** * VerbyFlow backend: session and streaming-pipeline orchestration

    A shallow embedding of the Python backend (session_manager.py,
    message_queue.py, streaming_transcription.py and the websocket endpoint
    of main.py) and the properties of it that the specification states.

    Conventions of the embedding.
    - A Python object that is only reached through one dictionary entry is
      the value stored at that entry; mutating the object is updating the
      entry.
    - A WebSocket object is identified by a natural number (its identity).
    - [datetime.now()] is an argument [now] of the operation that reads the
      clock, in microseconds.
    - Dictionaries are finite maps.  The claims below speak of membership
      and size only, never of iteration order.
    - Log lines, frames sent to a client and calls of external engines are
      recorded in ghost lists, so that their number and order can be
      stated.
    - A Python [str] is the string of the bytes of its UTF-8 encoding.
      [str.strip] is written out on that encoding; [str.lower], whose
      table of case mappings is that of Unicode, is an argument [lower]
      of the functions that call it. *)

From Stdlib Require Import ZArith QArith Lia Lqa.
From stdpp Require Import gmap strings list fin_maps pretty.
Close Scope Q_scope.

Abbreviation WebSocket := nat (only parsing).
Abbreviation bytes := (list Byte.byte) (only parsing).

(** ** Part I. The embedding *)

(** *** streaming_transcription.py: [AudioBuffer] *)

Module AudioBuffer.

Record t := mk {
  sample_rate : Z;
  chunk_size : Z;
  buffer : list bytes;
  total_samples : Z;
  last_transcription_end : Z
}.

(** [AudioBuffer()] with the default arguments. *)
Definition init : t :=
  {| sample_rate := 16000; chunk_size := 4096; buffer := [];
     total_samples := 0; last_transcription_end := 0 |}%Z.

Definition add_chunk (audio_chunk : bytes) (b : t) : t :=
  {| sample_rate := sample_rate b;
     chunk_size := chunk_size b;
     buffer := buffer b ++ [audio_chunk];
     total_samples := (total_samples b + Z.of_nat (length audio_chunk) `div` 2)%Z;
     last_transcription_end := last_transcription_end b |}.

(** [b''.join(self.buffer)] *)
Definition join (chunks : list bytes) : bytes := concat chunks.

(** Returns [None] when the list of chunks is empty (the Python [None]),
    otherwise all the chunks joined; the list of chunks is reset. *)
Definition get_new_audio (b : t) : option bytes * t :=
  match buffer b with
  | [] => (None, b)
  | _ :: _ =>
      (Some (join (buffer b)),
       {| sample_rate := sample_rate b;
          chunk_size := chunk_size b;
          buffer := [];
          total_samples := total_samples b;
          last_transcription_end := last_transcription_end b |})
  end.

Definition clear (b : t) : t :=
  {| sample_rate := sample_rate b;
     chunk_size := chunk_size b;
     buffer := [];
     total_samples := 0%Z;
     last_transcription_end := 0%Z |}.

(** A caller of the buffer either appends a chunk or takes everything. *)
Inductive op :=
| AddChunk (audio_chunk : bytes)
| GetNewAudio.

(** Runs a sequence of calls; the second component collects what each
    [get_new_audio] returned, in call order. *)
Fixpoint run (ops : list op) (b : t) : t * list (option bytes) :=
  match ops with
  | [] => (b, [])
  | AddChunk c :: ops' => run ops' (add_chunk c b)
  | GetNewAudio :: ops' =>
      let '(r, b') := get_new_audio b in
      let '(b'', rs) := run ops' b' in
      (b'', r :: rs)
  end.

(** The bytes handed to [add_chunk] by a sequence of calls, in order. *)
Definition added (ops : list op) : bytes :=
  concat (omap (λ o, match o with AddChunk c => Some c | GetNewAudio => None end) ops).

(** The bytes returned by the [get_new_audio] calls, in order; the
    no-data answer contributes nothing. *)
Definition returned (rs : list (option bytes)) : bytes :=
  concat (omap id rs).

(** What the calls of a sequence add to [total_samples]: every chunk
    counts for half its length, rounded down. *)
Definition samples (ops : list op) : Z :=
  foldr (λ o acc, match o with
                  | AddChunk c => (Z.of_nat (length c) `div` 2 + acc)%Z
                  | GetNewAudio => acc
                  end) 0%Z ops.

End AudioBuffer.

(** *** message_queue.py: [MessageQueue] *)

Module MessageQueue.

Section queue.
(** [M] is the type of messages, [P] the type of registered processors. *)
Context {M P : Type}.

(** [collections.deque(maxlen=...)]: the items, oldest first, and the
    bound.  [deque] refuses a negative bound, hence [nat]. *)
Record t := mk {
  queue : list M;
  maxlen : nat;
  _processing : bool;
  _processors : list P;
  _task : bool   (* whether [self._task] holds a task *)
}.

(** [MessageQueue(max_size)] *)
Definition new (max_size : nat) : t :=
  {| queue := []; maxlen := max_size; _processing := false;
     _processors := []; _task := false |}.

(** [deque.append] on a bounded deque: the item is appended on the
    right and, if the bound is now exceeded, one item is discarded
    from the left. *)
Definition deque_append (bound : nat) (items : list M) (x : M) : list M :=
  let items' := items ++ [x] in
  if bound <? length items' then tail items' else items'.

Definition add_processor (processor : P) (q : t) : t :=
  {| queue := queue q; maxlen := maxlen q; _processing := _processing q;
     _processors := _processors q ++ [processor]; _task := _task q |}.

Definition size (q : t) : nat := length (queue q).

Definition is_empty (q : t) : bool := length (queue q) =? 0.

Definition clear (q : t) : t :=
  {| queue := []; maxlen := maxlen q; _processing := _processing q;
     _processors := _processors q; _task := _task q |}.

(** The item is appended; a draining task is created unless one is
    present or draining is under way. *)
Definition add_message (message : M) (q : t) : t :=
  {| queue := deque_append (maxlen q) (queue q) message;
     maxlen := maxlen q;
     _processing := _processing q;
     _processors := _processors q;
     _task := if negb (_processing q) && negb (_task q) then true else _task q |}.

(** [stop]: the task is cancelled and both flags are reset. *)
Definition stop (q : t) : t :=
  {| queue := queue q; maxlen := maxlen q; _processing := false;
     _processors := _processors q; _task := false |}.

(** The last [n] items of a list. *)
Definition most_recent (n : nat) (l : list M) : list M :=
  drop (length l - n) l.

(** A sequence of [add_message] calls, first message first. *)
Definition add_messages (messages : list M) (q : t) : t :=
  foldl (λ q' m, add_message m q') q messages.

(** A call of one of the methods of a queue. *)
Inductive call :=
| AddMessage (message : M)
| AddProcessor (processor : P)
| Clear
| Stop.

Definition apply_call (c : call) (q : t) : t :=
  match c with
  | AddMessage message => add_message message q
  | AddProcessor processor => add_processor processor q
  | Clear => clear q
  | Stop => stop q
  end.

Definition apply_calls (cs : list call) (q : t) : t :=
  foldl (λ q' c, apply_call c q') q cs.

End queue.

Arguments t : clear implicits.

End MessageQueue.

(** *** session_manager.py: [Session] *)

Module Session.

(** The [user_info] dictionary that the endpoint builds for a join. *)
Record UserInfo := mkUserInfo {
  username : string;
  role : string;
  source_language : string;
  target_language : string
}.

(** [max_participants] is whatever number the caller supplies: the HTTP
    route passes an integer, the websocket message the number of its JSON
    body, an integer or a float; either is the rational it denotes (a
    comparison of an [int] with a finite [float] is exact in Python). *)
Record t := mk {
  session_id : string;
  name : string;
  created_at : Z;
  max_participants : Q;
  participants : gmap WebSocket UserInfo;
  last_activity : Z
}.

(** [Session(session_id, name, max_participants)] *)
Definition new (now : Z) (session_id name : string) (max_participants : Q) : t :=
  {| session_id := session_id;
     name := if decide (name = "") then "Session " +:+ String.substring 0 8 session_id
             else name;
     created_at := now;
     max_participants := max_participants;
     participants := ∅;
     last_activity := now |}.

(** [len(self.participants)] *)
Definition get_participant_count (s : t) : Z := Z.of_nat (size (participants s)).

(** [len(self.participants) >= self.max_participants] *)
Definition is_full (s : t) : bool :=
  Qle_bool (max_participants s) (inject_Z (get_participant_count s)).

Definition is_empty (s : t) : bool :=
  (get_participant_count s =? 0)%Z.

Definition add_participant (now : Z) (websocket : WebSocket) (user_info : UserInfo)
    (s : t) : bool * t :=
  if Qle_bool (max_participants s) (inject_Z (get_participant_count s)) then (false, s)
  else
    (true,
     {| session_id := session_id s;
        name := name s;
        created_at := created_at s;
        max_participants := max_participants s;
        participants := <[websocket := user_info]> (participants s);
        last_activity := now |}).

Definition remove_participant (now : Z) (websocket : WebSocket) (s : t) : bool * t :=
  match participants s !! websocket with
  | Some _ =>
      (true,
       {| session_id := session_id s;
          name := name s;
          created_at := created_at s;
          max_participants := max_participants s;
          participants := delete websocket (participants s);
          last_activity := now |})
  | None => (false, s)
  end.

(** The keys of the participants other than [websocket]. *)
Definition get_other_participants (websocket : WebSocket) (s : t) : list WebSocket :=
  filter (λ ws, ws ≠ websocket) (map_to_list (participants s)).*1.

(** The session in which [add_participant] leaves [s] when it adds. *)
Definition with_participant (now : Z) (ws : WebSocket) (info : UserInfo) (s : t) : t :=
  {| session_id := session_id s;
     name := name s;
     created_at := created_at s;
     max_participants := max_participants s;
     participants := <[ws := info]> (participants s);
     last_activity := now |}.

(** The session in which [remove_participant] leaves [s] when it removes. *)
Definition without_participant (now : Z) (ws : WebSocket) (s : t) : t :=
  {| session_id := session_id s;
     name := name s;
     created_at := created_at s;
     max_participants := max_participants s;
     participants := delete ws (participants s);
     last_activity := now |}.


Section to_dict.
(** [datetime.isoformat] *)
Variable isoformat : Z → string.


End to_dict.

End Session.

(** *** session_manager.py: [SessionManager] *)

Module SessionManager.

(** [cleanup_task] tells whether [self.cleanup_task] holds a task. *)
Record t := mk {
  sessions : gmap string Session.t;
  client_sessions : gmap WebSocket string;
  cleanup_task : bool
}.

(** [SessionManager()] *)
Definition init : t :=
  {| sessions := ∅; client_sessions := ∅; cleanup_task := false |}.

(** [start_cleanup_task]: a task running [_cleanup_inactive_sessions] is
    created unless one is held; that task loops for ever and nothing in
    the code cancels it, so a task that is held is never done. *)
Definition start_cleanup_task (m : t) : t :=
  if cleanup_task m then m
  else {| sessions := sessions m; client_sessions := client_sessions m;
          cleanup_task := true |}.

(** [uuid] is the string that [str(uuid.uuid4())] returned. *)
Definition create_session (now : Z) (uuid name : string) (max_participants : Q)
    (m : t) : Session.t * t :=
  let session := Session.new now uuid name max_participants in
  (session,
   {| sessions := <[uuid := session]> (sessions m);
      client_sessions := client_sessions m;
      cleanup_task := cleanup_task m |}).

Definition get_session (session_id : string) (m : t) : option Session.t :=
  sessions m !! session_id.

(** [if session_id:] fails on the empty string. *)
Definition get_client_session (websocket : WebSocket) (m : t) : option Session.t :=
  match client_sessions m !! websocket with
  | Some session_id =>
      if decide (session_id = "") then None else get_session session_id m
  | None => None
  end.

(** The Session object found under [session_id] is mutated in place. *)
Definition join_session (now : Z) (session_id : string) (websocket : WebSocket)
    (user_info : Session.UserInfo) (m : t) : bool * t :=
  match get_session session_id m with
  | None => (false, m)
  | Some session =>
      if Session.is_full session then (false, m)
      else
        match Session.add_participant now websocket user_info session with
        | (true, session') =>
            (true,
             {| sessions := <[session_id := session']> (sessions m);
                client_sessions := <[websocket := session_id]> (client_sessions m);
                cleanup_task := cleanup_task m |})
        | (false, _) => (false, m)
        end
  end.

(** A Session object sits in [sessions] under its own [session_id]
    ([create_session] is the only writer of that dictionary and the
    field is never assigned again): the in-place removal is an update
    of that entry. *)
Definition leave_session (now : Z) (websocket : WebSocket) (m : t) : bool * t :=
  match get_client_session websocket m with
  | None => (false, m)
  | Some session =>
      let session_id := Session.session_id session in
      match Session.remove_participant now websocket session with
      | (true, session') =>
          let sessions1 := <[session_id := session']> (sessions m) in
          (true,
           {| sessions := if Session.is_empty session' then delete session_id sessions1
                          else sessions1;
              client_sessions := delete websocket (client_sessions m);
              cleanup_task := cleanup_task m |})
      | (false, _) => (false, m)
      end
  end.

Definition get_session_participants (session_id : string) (m : t) : list WebSocket :=
  match get_session session_id m with
  | None => []
  | Some session => (map_to_list (Session.participants session)).*1
  end.

Definition get_other_session_participants (websocket : WebSocket) (m : t)
    : list WebSocket :=
  match get_client_session websocket m with
  | None => []
  | Some session => Session.get_other_participants websocket session
  end.

(** [timedelta(minutes=30)] in microseconds. *)
Definition inactivity_window : Z := 30 * 60 * 1000000.

(** The ids of the sessions whose last activity is older than the
    threshold. *)
Definition inactive_sessions (now : Z) (m : t) : list string :=
  (filter (λ kv, (Session.last_activity kv.2 < now - inactivity_window)%Z)
          (map_to_list (sessions m))).*1.

(** One pass of the loop of [_cleanup_inactive_sessions], after its
    sleep: every inactive session is deleted from [sessions]. *)
Definition _cleanup_inactive_sessions (now : Z) (m : t) : t :=
  {| sessions := foldl (λ acc session_id, delete session_id acc)
                       (sessions m) (inactive_sessions now m);
     client_sessions := client_sessions m;
     cleanup_task := cleanup_task m |}.

(** The operations that change a manager, as the endpoint and the
    background task invoke them. *)
Inductive op :=
| CreateSession (uuid name : string) (max_participants : Q)
| JoinSession (session_id : string) (websocket : WebSocket) (user_info : Session.UserInfo)
| LeaveSession (websocket : WebSocket)
| Sweep.

Definition step (now : Z) (o : op) (m : t) : t :=
  match o with
  | CreateSession uuid name max_participants =>
      (create_session now uuid name max_participants m).2
  | JoinSession session_id websocket user_info =>
      (join_session now session_id websocket user_info m).2
  | LeaveSession websocket => (leave_session now websocket m).2
  | Sweep => _cleanup_inactive_sessions now m
  end.

(** A history: each operation with the clock reading at which it ran. *)
Fixpoint run (history : list (Z * op)) (m : t) : t :=
  match history with
  | [] => m
  | (now, o) :: history' => run history' (step now o m)
  end.

(** [uuid4] does not repeat: a generated id names no session of the
    manager and is not referred to by the reverse index. *)
Definition fresh (uuid : string) (m : t) : Prop :=
  sessions m !! uuid = None ∧ ∀ ws, client_sessions m !! ws ≠ Some uuid.

Fixpoint uuids_fresh (history : list (Z * op)) (m : t) : Prop :=
  match history with
  | [] => True
  | (now, o) :: history' =>
      match o with CreateSession uuid _ _ => fresh uuid m | _ => True end ∧
      uuids_fresh history' (step now o m)
  end.

Definition is_sweep (o : op) : bool :=
  match o with Sweep => true | _ => false end.

Definition no_sweep (history : list (Z * op)) : Prop :=
  Forall (λ e, is_sweep e.2 = false) history.

(** The link between the two dictionaries as the specification words it:
    the reverse index gives a session id for a client exactly when the
    client is a participant of the session of that id. *)
Definition consistent (m : t) : Prop :=
  ∀ (ws : WebSocket) session_id,
    client_sessions m !! ws = Some session_id ↔
    ∃ session,
      sessions m !! session_id = Some session ∧
      is_Some (Session.participants session !! ws).

(** Every participant of a session is in the reverse index under the id
    of that session. *)
Definition indexed (m : t) : Prop :=
  ∀ k session (ws : WebSocket),
    sessions m !! k = Some session →
    is_Some (Session.participants session !! ws) →
    client_sessions m !! ws = Some k.

(** A join is in turn when the reverse index holds nothing for the
    client, or the very session that it joins. *)
Definition join_in_turn (o : op) (m : t) : Prop :=
  match o with
  | JoinSession session_id websocket _ =>
      client_sessions m !! websocket = None ∨
      client_sessions m !! websocket = Some session_id
  | _ => True
  end.

(** No client joins a session while the reverse index has it in another
    one. *)
Fixpoint one_session_at_a_time (history : list (Z * op)) (m : t) : Prop :=
  match history with
  | [] => True
  | (now, o) :: history' =>
      join_in_turn o m ∧ one_session_at_a_time history' (step now o m)
  end.

(** The link that survives a sweep: when the session that the reverse
    index gives for a client is still there, the client is one of its
    participants. *)
Definition linked (m : t) : Prop :=
  ∀ (ws : WebSocket) session_id session,
    client_sessions m !! ws = Some session_id →
    sessions m !! session_id = Some session →
    is_Some (Session.participants session !! ws).

(** Every session is stored under its own id. *)
Definition keyed (m : t) : Prop :=
  ∀ k session, sessions m !! k = Some session → Session.session_id session = k.

(** Every id in the reverse index names a session. *)
Definition present (m : t) : Prop :=
  ∀ (ws : WebSocket) session_id,
    client_sessions m !! ws = Some session_id → is_Some (sessions m !! session_id).




(** The number that [broadcast_to_session] returns, with the clients for
    which it creates a sending task. *)
Definition broadcast_to_session (websocket : WebSocket) (m : t) : nat * list WebSocket :=
  let others := get_other_session_participants websocket m in
  match others with
  | [] => (0, [])
  | _ :: _ => (length others, others)
  end.

End SessionManager.

(** *** streaming_transcription.py: [StreamingTranscriber] *)

Module StreamingTranscriber.

(** A Python [str] is represented by its UTF-8 encoding.  [str.isspace]
    holds of the code points 9 to 13, 28 to 32, U+0085, U+00A0, U+1680,
    U+2000 to U+200A, U+2028, U+2029, U+202F, U+205F and U+3000; the three
    predicates recognise their encodings of one, two and three bytes. *)
Definition isspace (c : Ascii.ascii) : bool :=
  let n := Ascii.nat_of_ascii c in
  (n =? 32) || ((9 <=? n) && (n <=? 13)) || ((28 <=? n) && (n <=? 31)).

Definition isspace2 (c1 c2 : Ascii.ascii) : bool :=
  let a := Ascii.nat_of_ascii c1 in
  let b := Ascii.nat_of_ascii c2 in
  (a =? 194) && ((b =? 133) || (b =? 160)).

Definition isspace3 (c1 c2 c3 : Ascii.ascii) : bool :=
  let a := Ascii.nat_of_ascii c1 in
  let b := Ascii.nat_of_ascii c2 in
  let c := Ascii.nat_of_ascii c3 in
  ((a =? 225) && (b =? 154) && (c =? 128)) ||
  ((a =? 226) && (b =? 128) &&
     (((128 <=? c) && (c <=? 138)) || (c =? 168) || (c =? 169) || (c =? 175))) ||
  ((a =? 226) && (b =? 129) && (c =? 159)) ||
  ((a =? 227) && (b =? 128) && (c =? 128)).

(** The white space at the front is removed; with [backwards] the bytes
    of the string are in reverse order, as are then the bytes of each
    code point. *)
Fixpoint lstrip_bytes (backwards : bool) (s : string) : string :=
  match s with
  | String c1 s1 =>
      if isspace c1 then lstrip_bytes backwards s1
      else
        match s1 with
        | String c2 s2 =>
            if (if backwards then isspace2 c2 c1 else isspace2 c1 c2)
            then lstrip_bytes backwards s2
            else
              match s2 with
              | String c3 s3 =>
                  if (if backwards then isspace3 c3 c2 c1 else isspace3 c1 c2 c3)
                  then lstrip_bytes backwards s3
                  else s
              | EmptyString => s
              end
        | EmptyString => s
        end
  | EmptyString => EmptyString
  end.

Definition lstrip (s : string) : string := lstrip_bytes false s.

(** [str.strip()] *)
Definition strip (s : string) : string :=
  String.rev (lstrip_bytes true (String.rev (lstrip s))).

(** The error and warning lines that the module writes to its logger. *)
Inductive log_entry :=
| TranscriptionError          (* "Transcription error: ..." *)
| ErrorInTranscriptionThread  (* "Error in transcription thread: ..." *)
| ThreadAlreadyRunning.       (* "Transcription thread already running" *)

(** Where a thread that runs [_process_audio] stands: at the test of
    [while self.running], in [time.sleep(0.5)], inside
    [_transcribe_audio_chunk] with the audio it took, or returned. *)
Inductive loop_pc :=
| AtTest
| Sleeping
| Recognising (audio_data : bytes)
| Exited.

(** The threads that the controller has started are kept in [threads];
    a thread object is its index there.  [recognizer_calls] and
    [callback_calls] record the calls made, oldest first. *)
Record t := mk {
  audio_buffer : AudioBuffer.t;
  processing_thread : option nat;
  running : bool;
  transcription_queue : list (string * Q);
  source_language : string;
  threads : list loop_pc;
  recognizer_calls : list (string * bytes);
  callback_calls : list (string * Q);
  log : list log_entry
}.

(** [StreamingTranscriber()] once the model is loaded. *)
Definition init : t :=
  {| audio_buffer := AudioBuffer.init; processing_thread := None;
     running := false; transcription_queue := []; source_language := "en";
     threads := []; recognizer_calls := []; callback_calls := []; log := [] |}.

Definition set_audio_buffer (b : AudioBuffer.t) (x : t) : t :=
  mk b (processing_thread x) (running x) (transcription_queue x) (source_language x)
     (threads x) (recognizer_calls x) (callback_calls x) (log x).
Definition set_processing_thread (p : option nat) (x : t) : t :=
  mk (audio_buffer x) p (running x) (transcription_queue x) (source_language x)
     (threads x) (recognizer_calls x) (callback_calls x) (log x).
Definition set_running (r : bool) (x : t) : t :=
  mk (audio_buffer x) (processing_thread x) r (transcription_queue x) (source_language x)
     (threads x) (recognizer_calls x) (callback_calls x) (log x).
Definition set_transcription_queue (q : list (string * Q)) (x : t) : t :=
  mk (audio_buffer x) (processing_thread x) (running x) q (source_language x)
     (threads x) (recognizer_calls x) (callback_calls x) (log x).
Definition set_source_language (l : string) (x : t) : t :=
  mk (audio_buffer x) (processing_thread x) (running x) (transcription_queue x) l
     (threads x) (recognizer_calls x) (callback_calls x) (log x).
Definition set_threads (ts : list loop_pc) (x : t) : t :=
  mk (audio_buffer x) (processing_thread x) (running x) (transcription_queue x)
     (source_language x) ts (recognizer_calls x) (callback_calls x) (log x).
Definition set_recognizer_calls (cs : list (string * bytes)) (x : t) : t :=
  mk (audio_buffer x) (processing_thread x) (running x) (transcription_queue x)
     (source_language x) (threads x) cs (callback_calls x) (log x).
Definition set_callback_calls (cs : list (string * Q)) (x : t) : t :=
  mk (audio_buffer x) (processing_thread x) (running x) (transcription_queue x)
     (source_language x) (threads x) (recognizer_calls x) cs (log x).
Definition add_log (e : log_entry) (x : t) : t :=
  mk (audio_buffer x) (processing_thread x) (running x) (transcription_queue x)
     (source_language x) (threads x) (recognizer_calls x) (callback_calls x)
     (log x ++ [e]).

Definition add_audio_chunk (chunk : bytes) (x : t) : t :=
  set_audio_buffer (AudioBuffer.add_chunk chunk (audio_buffer x)) x.

Definition set_language (language_code : string) (x : t) : t :=
  set_source_language language_code x.

(** [bool(result)] for the pair that [_transcribe_audio_chunk] returns:
    a tuple of two items is true whatever the items are. *)
Definition tuple_bool (result : string * Q) : bool := true.

(** [bool(text)] for a string. *)
Definition str_bool (text : string) : bool :=
  if decide (text = "") then false else true.

Section engine.
(** The try block of [_transcribe_audio_chunk] (the WAV file is written,
    the Whisper model is run on it, ["text"] is read from the answer
    with [""] as default): [whisper n language audio] is the text
    obtained by the call that [n] calls preceded, or [None] when that
    block raises. *)
Variable whisper : nat → string → bytes → option string.

(** [self.callback]; the function answers false when the call
    raises. *)
Variable callback : option (string → Q → bool).

Definition _transcribe_audio_chunk (audio_data : bytes) (x : t) : (string * Q) * t :=
  let x1 := set_recognizer_calls
              (recognizer_calls x ++ [(source_language x, audio_data)]) x in
  match whisper (length (recognizer_calls x)) (source_language x) audio_data with
  | Some text => ((strip text, 1%Q), x1)
  | None => (("", 0%Q), add_log TranscriptionError x1)
  end.

(** The first half of a pass of the loop of [_process_audio], after the
    sleep: the buffer is taken, and the pass goes on with the audio
    only if there is some and it is at least 8000 bytes long. *)
Definition take_audio (x : t) : option bytes * t :=
  let '(audio_data, b) := AudioBuffer.get_new_audio (audio_buffer x) in
  let x1 := set_audio_buffer b x in
  match audio_data with
  | None => (None, x1)
  | Some data =>
      if (Z.of_nat (length data) <? 8000)%Z then (None, x1) else (Some data, x1)
  end.

(** The second half: recognition, the result put on the queue, the
    callback; an exception of the callback is caught by the handler
    of the loop. *)
Definition recognise_and_publish (audio_data : bytes) (x : t) : t :=
  let '(result, x1) := _transcribe_audio_chunk audio_data x in
  if tuple_bool result then
    let x2 := set_transcription_queue (transcription_queue x1 ++ [result]) x1 in
    match callback with
    | Some f =>
        if str_bool result.1 then
          let x3 := set_callback_calls (callback_calls x2 ++ [result]) x2 in
          if f result.1 result.2 then x3 else add_log ErrorInTranscriptionThread x3
        else x2
    | None => x2
    end
  else x1.

(** One pass of the loop of [_process_audio]. *)
Definition _process_audio_pass (x : t) : t :=
  match take_audio x with
  | (None, x1) => x1
  | (Some audio_data, x1) => recognise_and_publish audio_data x1
  end.

Definition set_pc (i : nat) (pc : loop_pc) (x : t) : t :=
  set_threads (<[i := pc]> (threads x)) x.

(** One step of thread [i] running [_process_audio]. *)
Definition thread_step (i : nat) (x : t) : t :=
  match threads x !! i with
  | Some AtTest => if running x then set_pc i Sleeping x else set_pc i Exited x
  | Some Sleeping =>
      match take_audio x with
      | (None, x1) => set_pc i AtTest x1
      | (Some audio_data, x1) => set_pc i (Recognising audio_data) x1
      end
  | Some (Recognising audio_data) =>
      set_pc i AtTest (recognise_and_publish audio_data x)
  | Some Exited | None => x
  end.

(** [Thread.is_alive()] *)
Definition is_alive (i : nat) (x : t) : bool :=
  match threads x !! i with
  | Some Exited | None => false
  | Some _ => true
  end.

Definition start (x : t) : t :=
  if match processing_thread x with Some i => is_alive i x | None => false end
  then add_log ThreadAlreadyRunning x
  else
    let x1 := set_running true x in
    let x2 := set_processing_thread (Some (length (threads x1))) x1 in
    set_threads (threads x2 ++ [AtTest]) x2.

(** [Thread.join(timeout=2.0)]: the caller waits while thread [i] runs;
    [budget] is the number of steps that the thread completes before
    the two seconds are over.  The wait ends as soon as the thread
    has returned. *)
Fixpoint join (i : nat) (budget : nat) (x : t) : t :=
  match budget with
  | 0 => x
  | S budget' => if is_alive i x then join i budget' (thread_step i x) else x
  end.

Definition stop (budget : nat) (x : t) : t :=
  let x1 := set_running false x in
  let x2 := match processing_thread x1 with
            | Some i => set_processing_thread None (join i budget x1)
            | None => x1
            end in
  set_audio_buffer (AudioBuffer.clear (audio_buffer x2)) x2.

(** No thread of the controller is inside [_process_audio]. *)
Definition no_loop_running (x : t) : Prop :=
  ∀ i, is_alive i x = false.

End engine.

(** An upper bound on the steps that a thread still takes once the
    running flag is false. *)
Definition steps_to_exit (pc : loop_pc) : nat :=
  match pc with
  | Exited => 0
  | AtTest => 1
  | Recognising _ => 2
  | Sleeping => 3
  end.

Definition steps_left (i : nat) (x : t) : nat :=
  match threads x !! i with
  | Some pc => steps_to_exit pc
  | None => 0
  end.

(** The generator [get_transcriptions]: suspended somewhere in its
    loop, or returned. *)
Inductive generator := Suspended | Returned.

(** What a pass of the loop of the generator does: it yields an item,
    sleeps for 0.1 s, or the generator returns. *)
Inductive generator_event :=
| Yield (item : string * Q)
| Sleep
| StopIteration.

(** One pass of [while self.running] in [get_transcriptions]; a
    returned generator stays returned. *)
Definition get_transcriptions (g : generator) (x : t) : generator_event * generator * t :=
  match g with
  | Returned => (StopIteration, Returned, x)
  | Suspended =>
      if running x then
        match transcription_queue x with
        | item :: rest => (Yield item, Suspended, set_transcription_queue rest x)
        | [] => (Sleep, Suspended, x)
        end
      else (StopIteration, Returned, x)
  end.

End StreamingTranscriber.

(** *** message_queue.py: [ClientMessageManager] *)

Module ClientMessageManager.

Section manager.
Context {M P : Type}.

Record t := mk { queues : gmap string (MessageQueue.t M P) }.

Definition init : t := {| queues := ∅ |}.

(** Get or create: the manager with the queue in place, and the queue. *)
Definition get_queue (client_id : string) (mm : t) : MessageQueue.t M P * t :=
  match queues mm !! client_id with
  | Some q => (q, mm)
  | None =>
      let q := MessageQueue.new 100 in
      (q, {| queues := <[client_id := q]> (queues mm) |})
  end.

Definition add_message (client_id : string) (message : M) (mm : t) : t :=
  let '(q, mm1) := get_queue client_id mm in
  {| queues := <[client_id := MessageQueue.add_message message q]> (queues mm1) |}.

Definition add_processor (client_id : string) (processor : P) (mm : t) : t :=
  let '(q, mm1) := get_queue client_id mm in
  {| queues := <[client_id := MessageQueue.add_processor processor q]> (queues mm1) |}.

(** The queue is stopped by a task of its own and dropped from the
    dictionary. *)
Definition remove_client (client_id : string) (mm : t) : t :=
  match queues mm !! client_id with
  | Some _ => {| queues := delete client_id (queues mm) |}
  | None => mm
  end.

End manager.

Arguments t : clear implicits.

End ClientMessageManager.

(** *** main.py: the websocket endpoint *)

Module Main.

(** The dictionary [client_configs[websocket]]. *)
Record ClientConfig := mkConfig {
  source_language : string;
  target_language : string;
  role : string;
  client_id : string;
  session_id : option string;
  username : string
}.

(** The closure [process_audio] of the connection [websocket], the only
    processor that the endpoint registers. *)
Inductive processor := process_audio (websocket : WebSocket).

(** A control message, after [json.loads]; an absent key is [None]. *)
Inductive message :=
| config (source_language target_language role username : option string)
| session_create (name : option string) (max_participants : option Q)
| session_join (session_id : option string)
| session_leave
| ping
| other_type.

(** What [websocket.receive()] delivers. *)
Inductive data :=
| text (m : message)
| invalid_json
| bytes_frame (audio_data : bytes)
| disconnect.

(** A frame sent with [send_json], by its ["type"]. *)
Inductive frame :=
| config_updated (c : ClientConfig)
| session_created (session_id : string)
| session_joined (session_id : string)
| participant_joined (username : string)
| session_left
| error (message : string)
| pong
| role_info (role : string) (queue_size : nat).

(** What the endpoint does to the world outside its dictionaries, in
    the order in which it does it. *)
Inductive effect :=
| Sent (to : WebSocket) (f : frame)
| TranscriberStopped (websocket : WebSocket) (stopped : StreamingTranscriber.t)
| ConnectionRemoved (websocket : WebSocket)
| ConfigDiscarded (websocket : WebSocket)
| QueueRemoved (client_id : string)
| TranscriptionTaskCancelled (websocket : WebSocket)
| ProcessorError (client_id : string).

(** The module-level state of main.py and the global session manager. *)
Record t := mk {
  active_connections : list WebSocket;
  client_configs : gmap WebSocket ClientConfig;
  message_manager : ClientMessageManager.t bytes processor;
  active_transcribers : gmap WebSocket StreamingTranscriber.t;
  session_manager : SessionManager.t;
  effects : list effect
}.

Definition init : t :=
  {| active_connections := []; client_configs := ∅;
     message_manager := ClientMessageManager.init; active_transcribers := ∅;
     session_manager := SessionManager.init; effects := [] |}.

Definition set_active_connections (v : list WebSocket) (srv : t) : t :=
  mk v (client_configs srv) (message_manager srv) (active_transcribers srv)
     (session_manager srv) (effects srv).
Definition set_client_configs (v : gmap WebSocket ClientConfig) (srv : t) : t :=
  mk (active_connections srv) v (message_manager srv) (active_transcribers srv)
     (session_manager srv) (effects srv).
Definition set_message_manager (v : ClientMessageManager.t bytes processor) (srv : t) : t :=
  mk (active_connections srv) (client_configs srv) v (active_transcribers srv)
     (session_manager srv) (effects srv).
Definition set_active_transcribers (v : gmap WebSocket StreamingTranscriber.t) (srv : t) : t :=
  mk (active_connections srv) (client_configs srv) (message_manager srv) v
     (session_manager srv) (effects srv).
Definition set_session_manager (v : SessionManager.t) (srv : t) : t :=
  mk (active_connections srv) (client_configs srv) (message_manager srv)
     (active_transcribers srv) v (effects srv).
Definition do (e : effect) (srv : t) : t :=
  mk (active_connections srv) (client_configs srv) (message_manager srv)
     (active_transcribers srv) (session_manager srv) (effects srv ++ [e]).

Definition send_json (to : WebSocket) (f : frame) (srv : t) : t := do (Sent to f) srv.

Definition set_config (websocket : WebSocket) (c : ClientConfig) (srv : t) : t :=
  set_client_configs (<[websocket := c]> (client_configs srv)) srv.

(** [str(id(websocket))] *)
Definition client_id_of (websocket : WebSocket) : string := pretty websocket.

Definition default_config (websocket : WebSocket) : ClientConfig :=
  {| source_language := "en"; target_language := "es"; role := "speaker";
     client_id := client_id_of websocket; session_id := None;
     username := "User-" +:+ String.substring 0 8 (client_id_of websocket) |}.

(** [list.remove]: the first occurrence is removed. *)
Fixpoint list_remove (x : WebSocket) (l : list WebSocket) : list WebSocket :=
  match l with
  | [] => []
  | y :: l' => if decide (y = x) then l' else y :: list_remove x l'
  end.

(** [bool] of a value that is [None] or a string. *)
Definition truthy (o : option string) : bool :=
  match o with
  | Some v => if decide (v = "") then false else true
  | None => false
  end.

(** The endpoint from [accept] to the first [await websocket.receive()]
    of its receive loop, when [StreamingTranscriber()] returns a
    controller.  The task created around
    [session_manager.start_cleanup_task()] runs as soon as the endpoint
    awaits, which is at that first [receive]. *)
Definition accept (websocket : WebSocket) (srv : t) : t :=
  let srv1 := set_active_connections (active_connections srv ++ [websocket]) srv in
  let srv2 := set_active_transcribers
                (<[websocket := StreamingTranscriber.init]> (active_transcribers srv1)) srv1 in
  let srv3 := set_config websocket (default_config websocket) srv2 in
  let srv4 := set_message_manager
                (ClientMessageManager.add_processor (client_id_of websocket)
                   (process_audio websocket)
                   (ClientMessageManager.get_queue (client_id_of websocket)
                      (message_manager srv3)).2)
                srv3 in
  set_session_manager (SessionManager.start_cleanup_task (session_manager srv4)) srv4.

(** The endpoint when [StreamingTranscriber()] raises (the Whisper model
    cannot be loaded): the connection has been appended to
    [active_connections], the exception leaves the endpoint before its
    [try] statement is reached, and the [finally] block is not run. *)
Definition accept_raises (websocket : WebSocket) (srv : t) : t :=
  set_active_connections (active_connections srv ++ [websocket]) srv.

(** The body of [process_audio]: the role is read from the config of the
    connection when the processor runs.  A missing config makes the
    lookup raise; [_process_queue] catches and logs that. *)
Definition run_processor (client : string) (p : processor) (audio_data : bytes)
    (srv : t) : t :=
  match p with
  | process_audio websocket =>
      match client_configs srv !! websocket with
      | None => do (ProcessorError client) srv
      | Some c =>
          if decide (role c = "speaker") then
            set_active_transcribers
              (alter (StreamingTranscriber.add_audio_chunk audio_data) websocket
                 (active_transcribers srv)) srv
          else srv
      end
  end.

(** One pass of [while len(self.queue) > 0] in [_process_queue] for the
    queue of [client]: the head is taken off and handed to every
    processor in turn; on an empty queue the task ends and resets the
    flags. *)
Definition _process_queue_pass (client : string) (srv : t) : t :=
  match ClientMessageManager.queues (message_manager srv) !! client with
  | None => srv
  | Some q =>
      match MessageQueue.queue q with
      | [] =>
          set_message_manager
            {| ClientMessageManager.queues :=
                 <[client := MessageQueue.stop q]>
                   (ClientMessageManager.queues (message_manager srv)) |} srv
      | message :: rest =>
          let q' := MessageQueue.mk rest (MessageQueue.maxlen q) true
                      (MessageQueue._processors q) (MessageQueue._task q) in
          let srv1 := set_message_manager
                        {| ClientMessageManager.queues :=
                             <[client := q']>
                               (ClientMessageManager.queues (message_manager srv)) |} srv in
          foldl (λ acc p, run_processor client p message acc) srv1
                (MessageQueue._processors q)
      end
  end.

Section endpoint.
Variable whisper : nat → string → bytes → option string.
(** The number of steps that a recognition thread completes during
    the bounded wait of [stop]. *)
Variable join_budget : nat.

(** The [finally] block of the endpoint. *)
Definition cleanup (websocket : WebSocket) (srv : t) : t :=
  let client := client_id <$> (client_configs srv !! websocket) in
  let srv1 :=
    match active_transcribers srv !! websocket with
    | Some x =>
        do (TranscriberStopped websocket
              (StreamingTranscriber.stop whisper None join_budget x))
           (set_active_transcribers (delete websocket (active_transcribers srv)) srv)
    | None => srv
    end in
  let srv2 :=
    if decide (websocket ∈ active_connections srv1) then
      do (ConnectionRemoved websocket)
         (set_active_connections (list_remove websocket (active_connections srv1)) srv1)
    else srv1 in
  let srv3 :=
    match client_configs srv2 !! websocket with
    | Some _ =>
        do (ConfigDiscarded websocket)
           (set_client_configs (delete websocket (client_configs srv2)) srv2)
    | None => srv2
    end in
  let srv4 :=
    if truthy client then
      do (QueueRemoved (default "" client))
         (set_message_manager
            (ClientMessageManager.remove_client (default "" client) (message_manager srv3))
            srv3)
    else srv3 in
  do (TranscriptionTaskCancelled websocket) srv4.

Definition user_info_of (c : ClientConfig) : Session.UserInfo :=
  {| Session.username := username c; Session.role := role c;
     Session.source_language := source_language c;
     Session.target_language := target_language c |}.

(** The branch of the receive loop for a control message; [c] is the
    config of the connection, [uuid] the id that [uuid4] yields if it
    is asked for one. *)
Definition handle_message (now : Z) (uuid : string) (websocket : WebSocket)
    (c : ClientConfig) (m : message) (srv : t) : t :=
  match m with
  | config sl tl r u =>
      let c1 := match sl with
                | Some v => mkConfig v (target_language c) (role c) (client_id c)
                              (session_id c) (username c)
                | None => c end in
      let srv1 := match sl with
                  | Some v =>
                      set_active_transcribers
                        (alter (StreamingTranscriber.set_language v) websocket
                           (active_transcribers srv)) srv
                  | None => srv end in
      let c2 := match tl with
                | Some v => mkConfig (source_language c1) v (role c1) (client_id c1)
                              (session_id c1) (username c1)
                | None => c1 end in
      let c3 := match r with
                | Some v => mkConfig (source_language c2) (target_language c2) v
                              (client_id c2) (session_id c2) (username c2)
                | None => c2 end in
      let c4 := match u with
                | Some v => mkConfig (source_language c3) (target_language c3) (role c3)
                              (client_id c3) (session_id c3) v
                | None => c3 end in
      send_json websocket (config_updated c4) (set_config websocket c4 srv1)
  | session_create name max_participants =>
      let '(session, sm1) :=
        SessionManager.create_session now uuid (default "" name)
          (default 2%Q max_participants) (session_manager srv) in
      let '(joined, sm2) :=
        SessionManager.join_session now (Session.session_id session) websocket
          (user_info_of c) sm1 in
      let srv1 := set_session_manager sm2 srv in
      if joined then
        send_json websocket (session_created (Session.session_id session))
          (set_config websocket
             (mkConfig (source_language c) (target_language c) (role c) (client_id c)
                (Some (Session.session_id session)) (username c)) srv1)
      else send_json websocket (error "Failed to join newly created session") srv1
  | session_join sid =>
      if truthy sid then
        let session_id' := default "" sid in
        let '(joined, sm1) :=
          SessionManager.join_session now session_id' websocket (user_info_of c)
            (session_manager srv) in
        let srv1 := set_session_manager sm1 srv in
        if joined then
          let srv2 := send_json websocket (session_joined session_id')
                        (set_config websocket
                           (mkConfig (source_language c) (target_language c) (role c)
                              (client_id c) (Some session_id') (username c)) srv1) in
          foldl (λ acc other, send_json other (participant_joined (username c)) acc)
                srv2
                (SessionManager.get_other_session_participants websocket sm1)
        else
          send_json websocket
            (error "Failed to join session. It may be full or no longer exists.") srv1
      else send_json websocket (error "No session ID provided") srv
  | session_leave =>
      if truthy (session_id c) then
        let '(has_left, sm1) :=
          SessionManager.leave_session now websocket (session_manager srv) in
        let srv1 := set_session_manager sm1 srv in
        if has_left then
          send_json websocket session_left
            (set_config websocket
               (mkConfig (source_language c) (target_language c) (role c) (client_id c)
                  None (username c)) srv1)
        else send_json websocket (error "Not in a session or failed to leave") srv1
      else send_json websocket (error "Not in a session or failed to leave") srv
  | ping => send_json websocket pong srv
  | other_type => srv
  end.

(** The branch of the receive loop for a binary frame. *)
Definition handle_bytes (websocket : WebSocket) (c : ClientConfig)
    (audio_data : bytes) (srv : t) : t :=
  match audio_data with
  | [] => srv
  | _ :: _ =>
      if decide (client_id c = "") then
        if decide (role c = "speaker") then
          set_active_transcribers
            (alter (StreamingTranscriber.add_audio_chunk audio_data) websocket
               (active_transcribers srv)) srv
        else srv
      else
        let srv1 := set_message_manager
                      (ClientMessageManager.add_message (client_id c) audio_data
                         (message_manager srv)) srv in
        if decide (role c = "speaker") then srv1
        else
          send_json websocket
            (role_info (role c)
               (MessageQueue.size
                  (ClientMessageManager.get_queue (client_id c) (message_manager srv1)).1))
            srv1
  end.

(** One turn of the receive loop of the connection [websocket].  A
    disconnect, like any exception (here: the config of the connection
    is missing), leads to the [finally] block. *)
Definition receive (now : Z) (uuid : string) (websocket : WebSocket) (d : data)
    (srv : t) : t :=
  match d with
  | disconnect => cleanup websocket srv
  | invalid_json => srv
  | text m =>
      match client_configs srv !! websocket with
      | Some c => handle_message now uuid websocket c m srv
      | None => cleanup websocket srv
      end
  | bytes_frame audio_data =>
      match client_configs srv !! websocket with
      | Some c => handle_bytes websocket c audio_data srv
      | None => cleanup websocket srv
      end
  end.

(** What happens on the event loop, one item at a time. *)
Inductive event :=
| Accept (websocket : WebSocket)
| AcceptRaises (websocket : WebSocket)
| Receive (now : Z) (uuid : string) (websocket : WebSocket) (d : data)
| QueuePass (client : string).

Definition step (e : event) (srv : t) : t :=
  match e with
  | Accept websocket => accept websocket srv
  | AcceptRaises websocket => accept_raises websocket srv
  | Receive now uuid websocket d => receive now uuid websocket d srv
  | QueuePass client => _process_queue_pass client srv
  end.

Definition run (events : list event) (srv : t) : t :=
  foldl (λ acc e, step e acc) srv events.

End endpoint.

(** [n] passes in a row of the draining loop of the queue of [client]. *)
Definition drain (n : nat) (client : string) (srv : t) : t :=
  Nat.iter n (_process_queue_pass client) srv.

End Main.

(** *** translation.py *)

Module Translation.

Definition LANGUAGE_CODES : gmap string string :=
  list_to_map
    [("english", "en"); ("spanish", "es"); ("french", "fr"); ("german", "de");
     ("italian", "it"); ("portuguese", "pt"); ("russian", "ru"); ("japanese", "ja");
     ("korean", "ko"); ("chinese", "zh"); ("arabic", "ar"); ("hindi", "hi")].

(** [LANGUAGE_CODES.get(language.lower(), language.lower())]; [lower] is
    Python's [str.lower]. *)
Definition normalize (lower : string → string) (language : string) : string :=
  default (lower language) (LANGUAGE_CODES !! lower language).

(** What [translate_client.translate] does: it answers a dictionary, of
    which ["translatedText"] and ["detectedSourceLanguage"] are read, or it
    raises with a message. *)
Inductive answer :=
| Translated (translatedText : string) (detectedSourceLanguage : option string)
| Raised (message : string).

(** The arguments of a call: text, target language, source language. *)
Definition client : Type := string → string → option string → answer.

Section translate.
(** Python's [str.lower]. *)
Variable lower : string → string.

(** [translate_client], [None] when no credentials are configured. *)
Variable translate_client : option client.

(** The triple that [translate_text] returns, with the calls of the
    client that it made. *)
Definition translate_text (text source_language target_language : string)
    : (string * string * string) * list (string * string * option string) :=
  let source_code := normalize lower source_language in
  let target_code := normalize lower target_language in
  if decide (StreamingTranscriber.strip text = "") then
    ((text, text, source_code), [])
  else
    match translate_client with
    | Some translate =>
        let source := if decide (source_code = "auto") then None else Some source_code in
        let calls := [(text, target_code, source)] in
        match translate text target_code source with
        | Translated translated_text detected =>
            ((text, translated_text, default source_code detected), calls)
        | Raised message =>
            ((text, "Translation error: " +:+ message, source_code), calls)
        end
    | None =>
        ((text, "[" +:+ target_code +:+ "] " +:+ text, source_code), [])
    end.

End translate.

End Translation.

(** *** text_to_speech.py *)

Module TextToSpeech.

Definition DEFAULT_VOICES : gmap string string :=
  list_to_map
    [("en", "en-US-ChristopherNeural"); ("es", "es-ES-AlvaroNeural");
     ("fr", "fr-FR-HenriNeural"); ("de", "de-DE-ConradNeural");
     ("it", "it-IT-DiegoNeural"); ("pt", "pt-BR-AntonioNeural");
     ("ru", "ru-RU-DmitryNeural"); ("ja", "ja-JP-KeitaNeural");
     ("ko", "ko-KR-InJoonNeural"); ("zh", "zh-CN-YunxiNeural");
     ("ar", "ar-EG-ShakirNeural"); ("hi", "hi-IN-MadhurNeural")].

Section synthesis.
(** Python's [str.lower]. *)
Variable lower : string → string.

(** [voice or DEFAULT_VOICES.get(language.lower(), "en-US-ChristopherNeural")] *)
Definition select_voice (language : string) (voice : option string) : string :=
  if Main.truthy voice then default "" voice
  else default "en-US-ChristopherNeural" (DEFAULT_VOICES !! lower language).

(** The try block of [text_to_speech] after the choice of the voice (a
    temporary file is made, Edge TTS writes the speech to it, the file is
    read back and removed): [synthesize text voice] is the audio read, or
    [None] when the block raises. *)
Variable synthesize : string → string → option bytes.

(** The pair that [text_to_speech] returns, with the text and the voice
    of each run of that block. *)
Definition text_to_speech (text language : string) (voice : option string)
    : (bytes * string) * list (string * string) :=
  if decide (StreamingTranscriber.strip text = "") then (([], "audio/mp3"), [])
  else
    let selected_voice := select_voice language voice in
    match synthesize text selected_voice with
    | Some audio_data => ((audio_data, "audio/mp3"), [(text, selected_voice)])
    | None => (([], "audio/mp3"), [(text, selected_voice)])
    end.

(** The answers of the route [/speak] of main.py: the audio with its
    media type, or the HTTP error 500. *)
Inductive response :=
| Response (content : bytes) (media_type : string)
| HTTPException500.

(** The route [/speak]: an empty voice counts as none, and empty audio
    raises, inside the try block, an exception that the handler turns into
    the error 500. *)
Definition speak (text language : string) (voice : option string) : response :=
  let voice' := if Main.truthy voice then voice else None in
  let '(audio_data, content_type) := (text_to_speech text language voice').1 in
  match audio_data with
  | [] => HTTPException500
  | _ :: _ => Response audio_data content_type
  end.

End synthesis.

End TextToSpeech.

(** *** Concrete histories used by the examples *)

Module Examples.
Import SessionManager.

Definition alice : Session.UserInfo :=
  {| Session.username := "alice"; Session.role := "speaker";
     Session.source_language := "en"; Session.target_language := "es" |}.

Definition bob : Session.UserInfo :=
  {| Session.username := "bob"; Session.role := "listener";
     Session.source_language := "es"; Session.target_language := "en" |}.

Definition uuid1 : string := "0b9d3c1e-5a51-4c0e-9a53-3f1c2f0e7a11".
Definition uuid2 : string := "7c1f0a52-88f4-4f0b-b8a5-0d6a4b1e9c22".

(** A session is created, client 1 joins it, and the sweep runs a little
    more than thirty minutes later. *)
Definition abandoned_history : list (Z * op) :=
  [(0, CreateSession uuid1 "" 2);
   (1000, JoinSession uuid1 1 alice);
   (1800002000, Sweep)]%Z.

(** A session is created, clients 1 and 2 join it, client 3 is refused,
    and client 1 leaves. *)
Definition call_history : list (Z * op) :=
  [(0, CreateSession uuid1 "call" 2);
   (1000, JoinSession uuid1 1 alice);
   (2000, JoinSession uuid1 2 bob);
   (3000, JoinSession uuid1 3 bob);
   (4000, LeaveSession 1)]%Z.



(** A session for two is created and client 1 joins it. *)
Definition lone_participant_history : list (Z * op) :=
  [(0, CreateSession uuid1 "" 2);
   (1000, JoinSession uuid1 1 alice)]%Z.

(** Two sessions are created; client 1 joins the first, then the second,
    and leaves. *)
Definition double_join_history : list (Z * op) :=
  [(0, CreateSession uuid1 "" 2);
   (10, CreateSession uuid2 "" 2);
   (1000, JoinSession uuid1 1 alice);
   (2000, JoinSession uuid2 1 alice);
   (3000, LeaveSession 1)]%Z.

(** An audio chunk of 2000 bytes. *)
Definition chunk2000 : bytes := replicate 2000 Byte.x00.

(** A new controller to which [n] chunks of 2000 bytes have been added. *)
Definition buffered (n : nat) : StreamingTranscriber.t :=
  Nat.iter n (StreamingTranscriber.add_audio_chunk chunk2000) StreamingTranscriber.init.

(** A recogniser that raises on every call, and one that answers. *)
Definition failing_whisper : nat → string → bytes → option string :=
  λ _ _ _, None.
Definition hello_whisper : nat → string → bytes → option string :=
  λ _ _ _, Some " hello ".

(** A started controller whose thread has taken five chunks of 2000
    bytes from the buffer and is inside the recognition call. *)
Definition mid_recognition : StreamingTranscriber.t :=
  let x0 := StreamingTranscriber.start StreamingTranscriber.init in
  let x1 := StreamingTranscriber.thread_step failing_whisper None 0 x0 in
  let x2 := Nat.iter 5 (StreamingTranscriber.add_audio_chunk chunk2000) x1 in
  StreamingTranscriber.thread_step failing_whisper None 0 x2.

(** Client 1 opens a session, client 2 joins it, client 1 drops. *)
Definition two_party_call : list Main.event :=
  [Main.Accept 1; Main.Accept 2;
   Main.Receive 0 uuid1 1 (Main.text (Main.session_create None None));
   Main.Receive 1000 "" 2 (Main.text (Main.session_join (Some uuid1)))].

Definition drop_of_client_1 : list Main.event :=
  two_party_call ++ [Main.Receive 2000 "" 1 Main.disconnect].

Definition chunk_a : bytes := [Byte.x01; Byte.x02].
Definition chunk_b : bytes := [Byte.x03; Byte.x04].

(** Client 1 is a listener while two chunks arrive and turns speaker
    before the queue is drained. *)
Definition listener_turns_speaker : list Main.event :=
  [Main.Accept 1;
   Main.Receive 0 "" 1 (Main.text (Main.config None None (Some "listener") None));
   Main.Receive 10 "" 1 (Main.bytes_frame chunk_a);
   Main.Receive 20 "" 1 (Main.bytes_frame chunk_b);
   Main.Receive 30 "" 1 (Main.text (Main.config None None (Some "speaker") None))].

(** Client 1 is a speaker while two chunks arrive and turns listener
    before the queue is drained. *)
Definition speaker_turns_listener : list Main.event :=
  [Main.Accept 1;
   Main.Receive 10 "" 1 (Main.bytes_frame chunk_a);
   Main.Receive 20 "" 1 (Main.bytes_frame chunk_b);
   Main.Receive 30 "" 1 (Main.text (Main.config None None (Some "listener") None))].

End Examples.

(** *** More concrete states used by the examples *)

Module MoreExamples.
Import SessionManager.

(** Two sessions exist and client 1 is in the first. *)
Definition two_sessions : SessionManager.t :=
  run [(0, CreateSession Examples.uuid1 "first" 2);
       (10, CreateSession Examples.uuid2 "second" 2);
       (20, JoinSession Examples.uuid1 1 Examples.alice)]%Z init.

(** Client 1 is accepted, sends two chunks as a speaker, both are taken
    off the queue, and it then asks for French as source language. *)
Definition one_speaker : list Main.event :=
  [Main.Accept 1;
   Main.Receive 10 "" 1 (Main.bytes_frame Examples.chunk_a);
   Main.Receive 20 "" 1 (Main.bytes_frame Examples.chunk_b);
   Main.QueuePass "1"; Main.QueuePass "1";
   Main.Receive 30 "" 1 (Main.text (Main.config (Some "fr") None None None))].

(** A started controller whose thread is in its sleep while three chunks
    of 2000 bytes arrive. *)
Definition asleep_with_short_audio : StreamingTranscriber.t :=
  let x0 := StreamingTranscriber.start StreamingTranscriber.init in
  let x1 := StreamingTranscriber.thread_step Examples.failing_whisper None 0 x0 in
  Nat.iter 3 (StreamingTranscriber.add_audio_chunk Examples.chunk2000) x1.

(** Client 1 is accepted and turns listener. *)
Definition one_listener : list Main.event :=
  [Main.Accept 1;
   Main.Receive 0 "" 1 (Main.text (Main.config None None (Some "listener") None))].

End MoreExamples.

(** *** States of the endpoint *)

Module EndpointState.

(** A controller on which [start] has never been called and that has
    produced nothing. *)
Definition never_started (x : StreamingTranscriber.t) : Prop :=
  StreamingTranscriber.running x = false ∧
  StreamingTranscriber.processing_thread x = None ∧
  StreamingTranscriber.threads x = [] ∧
  StreamingTranscriber.transcription_queue x = [] ∧
  StreamingTranscriber.recognizer_calls x = [].

Definition transcribers_never_started (srv : Main.t) : Prop :=
  ∀ (ws : WebSocket) x, Main.active_transcribers srv !! ws = Some x → never_started x.

(** Every connection that has a config has a controller, and the
    controller transcribes in the source language of the config. *)
Definition languages_agree (srv : Main.t) : Prop :=
  ∀ (ws : WebSocket) c,
    Main.client_configs srv !! ws = Some c →
    ∃ x, Main.active_transcribers srv !! ws = Some x ∧
         StreamingTranscriber.source_language x = Main.source_language c.

Definition good (srv : Main.t) : Prop :=
  transcribers_never_started srv ∧ languages_agree srv.

(** The connection [ws] is not known to any registry of main.py. *)
Definition unknown (ws : WebSocket) (srv : Main.t) : Prop :=
  (ws ∉ Main.active_connections srv) ∧
  Main.client_configs srv !! ws = None ∧
  Main.active_transcribers srv !! ws = None ∧
  ClientMessageManager.queues (Main.message_manager srv) !! Main.client_id_of ws = None.

End EndpointState.

(** ** Part II. Properties *)

Section audio_buffer_facts.
Import AudioBuffer.

Lemma get_new_audio_buffer (b : t) : buffer (get_new_audio b).2 = [].
Proof. unfold get_new_audio. destruct (buffer b) eqn:E; simpl; auto. Qed.

Lemma get_new_audio_returned (b : t) :
  returned [(get_new_audio b).1] = join (buffer b).
Proof.
  unfold get_new_audio, returned.
  destruct (buffer b) eqn:E; simpl; rewrite ?app_nil_r; reflexivity.
Qed.

Lemma get_new_audio_empty (b : t) :
  buffer b = [] → get_new_audio b = (None, b).
Proof. intros E. unfold get_new_audio. rewrite E. reflexivity. Qed.

(** What has been returned, followed by what is still buffered, is what
    was buffered at the start followed by what has been added. *)
Lemma run_conservation (ops : list op) : ∀ b b' rs,
  run ops b = (b', rs) →
  returned rs ++ join (buffer b') = join (buffer b) ++ added ops.
Proof.
  induction ops as [|o ops IH]; intros b b' rs Hrun; simpl in Hrun.
  - inversion Hrun; subst. unfold returned, added; simpl.
    rewrite app_nil_r. reflexivity.
  - destruct o as [c|].
    + apply IH in Hrun. rewrite Hrun. simpl.
      unfold join, added. simpl. rewrite concat_app. simpl.
      rewrite app_nil_r, app_assoc. reflexivity.
    + destruct (get_new_audio b) as [r b1] eqn:Hg.
      destruct (run ops b1) as [b2 rs2] eqn:Hr.
      inversion Hrun; subst. apply IH in Hr.
      pose proof (get_new_audio_buffer b) as Hb.
      pose proof (get_new_audio_returned b) as Hret.
      rewrite Hg in Hb, Hret. simpl in Hb, Hret.
      rewrite Hb in Hr. simpl in Hr.
      change (added (GetNewAudio :: ops)) with (added ops).
      rewrite <- Hr, app_assoc. f_equal.
      unfold returned in *. simpl in *.
      destruct r; simpl in *.
      * rewrite app_nil_r in Hret. rewrite Hret. reflexivity.
      * rewrite <- Hret. reflexivity.
Qed.

(** C6. Two [get_new_audio] calls in a row: the second one answers
    [None] and changes nothing; and over any interleaving of [add_chunk]
    and [get_new_audio] calls on a fresh buffer, the bytes returned
    followed by the bytes still buffered are the bytes added, in order,
    so that once a final [get_new_audio] has drained the buffer the
    bytes returned are exactly the bytes added. *)
Theorem audio_buffer_take_twice_and_conservation :
  (∀ b : t,
     let b1 := (get_new_audio b).2 in
     get_new_audio b1 = (None, b1)) ∧
  (∀ (ops : list op),
     let '(b', rs) := run ops init in
     returned rs ++ join (buffer b') = added ops) ∧
  (∀ (ops : list op),
     let '(b', rs) := run (ops ++ [GetNewAudio]) init in
     returned rs = added ops ∧ buffer b' = []).
Proof.
  split; [|split].
  - intros b b1. apply get_new_audio_empty. apply get_new_audio_buffer.
  - intros ops. destruct (run ops init) as [b' rs] eqn:Hrun.
    apply run_conservation in Hrun. exact Hrun.
  - intros ops. destruct (run (ops ++ [GetNewAudio]) init) as [b' rs] eqn:Hrun.
    assert (Hb : buffer b' = []).
    { clear -Hrun. revert Hrun. generalize init. generalize dependent rs.
      induction ops as [|o ops IH]; intros rs b Hrun; simpl in Hrun.
      - destruct (get_new_audio b) as [r b1] eqn:Hg.
        inversion Hrun; subst.
        pose proof (get_new_audio_buffer b) as Hb. rewrite Hg in Hb. exact Hb.
      - destruct o as [c|].
        + eapply IH; eauto.
        + destruct (get_new_audio b) as [r b1] eqn:Hg.
          destruct (run (ops ++ [GetNewAudio]) b1) as [b2 rs2] eqn:Hr.
          inversion Hrun; subst. eapply IH; eauto. }
    split; [|exact Hb].
    apply run_conservation in Hrun. rewrite Hb in Hrun. simpl in Hrun.
    rewrite app_nil_r in Hrun. rewrite Hrun.
    unfold added. rewrite omap_app. simpl. rewrite app_nil_r. reflexivity.
Qed.

End audio_buffer_facts.

Section message_queue_facts.
Import MessageQueue.
Context {M P : Type}.
Implicit Types (q : MessageQueue.t M P) (l msgs : list M).

Lemma deque_append_most_recent (n : nat) l (x : M) :
  length l ≤ n → deque_append n l x = most_recent n (l ++ [x]).
Proof.
  intros Hlen. unfold deque_append, most_recent.
  rewrite length_app. simpl.
  destruct (Nat.ltb_spec n (length l + 1)) as [Hlt|Hge].
  - replace (length l + 1 - n) with 1 by lia. reflexivity.
  - replace (length l + 1 - n) with 0 by lia. reflexivity.
Qed.

Lemma most_recent_length (n : nat) l : length (most_recent n l) ≤ n.
Proof. unfold most_recent. rewrite length_drop. lia. Qed.

Lemma most_recent_snoc (n : nat) l (x : M) :
  most_recent n (most_recent n l ++ [x]) = most_recent n (l ++ [x]).
Proof.
  unfold most_recent.
  rewrite !length_app, length_drop. simpl.
  rewrite <- (drop_app_le l [x] (length l - n)) by lia.
  rewrite drop_drop. f_equal. lia.
Qed.

Lemma add_messages_snoc msgs (x : M) q :
  add_messages (msgs ++ [x]) q = add_message x (add_messages msgs q).
Proof. unfold add_messages. rewrite foldl_app. reflexivity. Qed.

Lemma add_messages_maxlen msgs q : maxlen (add_messages msgs q) = maxlen q.
Proof.
  induction msgs as [|x msgs IH] using rev_ind; [reflexivity|].
  rewrite add_messages_snoc. simpl. exact IH.
Qed.

Lemma add_messages_queue msgs q :
  length (queue q) ≤ maxlen q →
  queue (add_messages msgs q) = most_recent (maxlen q) (queue q ++ msgs).
Proof.
  intros Hlen. induction msgs as [|x msgs IH] using rev_ind.
  - simpl. rewrite app_nil_r. unfold most_recent.
    replace (length (queue q) - maxlen q) with 0 by lia. reflexivity.
  - rewrite add_messages_snoc. simpl.
    rewrite add_messages_maxlen, IH.
    rewrite deque_append_most_recent by apply most_recent_length.
    rewrite most_recent_snoc, app_assoc. reflexivity.
Qed.

(** C4. After more [add_message] calls than the queue's capacity, the
    queue holds exactly the [capacity] most recent messages in arrival
    order; [MessageQueue()] has capacity 100; a call on a full queue
    drops the oldest entry and appends the new one, and a call on a queue
    that is not full appends: no call is refused. *)
Theorem message_queue_keeps_most_recent :
  (∀ (capacity : nat) msgs,
     capacity < length msgs →
     let q := add_messages msgs (new (P:=P) capacity) in
     queue q = drop (length msgs - capacity) msgs ∧
     length (queue q) = capacity) ∧
  maxlen (new (M:=M) (P:=P) 100) = 100 ∧
  (∀ q (oldest x : M) l,
     queue q = oldest :: l → length (queue q) = maxlen q →
     queue (add_message x q) = l ++ [x]) ∧
  (∀ q (x : M),
     length (queue q) < maxlen q →
     queue (add_message x q) = queue q ++ [x]).
Proof.
  repeat split.
  - rewrite add_messages_queue by (simpl; lia). reflexivity.
  - rewrite add_messages_queue by (simpl; lia). simpl.
    unfold most_recent. rewrite length_drop. lia.
  - intros q oldest x l Hq Hfull. simpl. unfold deque_append.
    rewrite length_app. simpl.
    destruct (Nat.ltb_spec (maxlen q) (length (queue q) + 1)) as [_|Hge]; [|lia].
    rewrite Hq. reflexivity.
  - intros q x Hlt. simpl. unfold deque_append.
    rewrite length_app. simpl.
    destruct (Nat.ltb_spec (maxlen q) (length (queue q) + 1)) as [Hlt'|_]; [lia|].
    reflexivity.
Qed.

End message_queue_facts.

Lemma message_queue_keeps_most_recent_witness :
  let q := MessageQueue.add_messages [10; 20; 30] (MessageQueue.new (P:=unit) 2) in
  MessageQueue.queue q = [20; 30] ∧ length (MessageQueue.queue q) = 2.
Proof.
  apply (proj1 (message_queue_keeps_most_recent (M:=nat) (P:=unit)) 2 [10; 20; 30]).
  simpl. lia.
Defined.

Section session_manager_facts.
Import SessionManager.
Implicit Types (m : SessionManager.t) (s : Session.t) (ws : WebSocket).

Lemma join_session_missing now sid ws info m :
  sessions m !! sid = None → join_session now sid ws info m = (false, m).
Proof. intros H. unfold join_session, get_session. rewrite H. reflexivity. Qed.

Lemma join_session_full now sid ws info m s :
  sessions m !! sid = Some s → Session.is_full s = true →
  join_session now sid ws info m = (false, m).
Proof. intros H F. unfold join_session, get_session. rewrite H, F. reflexivity. Qed.

Lemma join_session_ok now sid ws info m s :
  sessions m !! sid = Some s → Session.is_full s = false →
  join_session now sid ws info m =
    (true, {| sessions := <[sid := Session.with_participant now ws info s]> (sessions m);
              client_sessions := <[ws := sid]> (client_sessions m);
              cleanup_task := cleanup_task m |}).
Proof.
  intros H F. unfold join_session, get_session. rewrite H, F.
  unfold Session.add_participant. unfold Session.is_full in F. rewrite F.
  reflexivity.
Qed.

Lemma leave_session_none now ws m :
  get_client_session ws m = None → leave_session now ws m = (false, m).
Proof. intros H. unfold leave_session. rewrite H. reflexivity. Qed.

Lemma leave_session_absent now ws m s :
  get_client_session ws m = Some s → Session.participants s !! ws = None →
  leave_session now ws m = (false, m).
Proof.
  intros H N. unfold leave_session. rewrite H.
  unfold Session.remove_participant. rewrite N. reflexivity.
Qed.

Lemma leave_session_ok now ws m s :
  get_client_session ws m = Some s → is_Some (Session.participants s !! ws) →
  leave_session now ws m =
    (true,
     {| sessions :=
          if Session.is_empty (Session.without_participant now ws s)
          then delete (Session.session_id s)
                 (<[Session.session_id s := Session.without_participant now ws s]> (sessions m))
          else <[Session.session_id s := Session.without_participant now ws s]> (sessions m);
        client_sessions := delete ws (client_sessions m);
        cleanup_task := cleanup_task m |}).
Proof.
  intros H [info N]. unfold leave_session. rewrite H.
  unfold Session.remove_participant. rewrite N. reflexivity.
Qed.

Lemma get_client_session_Some ws m s :
  get_client_session ws m = Some s ↔
  ∃ sid, client_sessions m !! ws = Some sid ∧ sid ≠ "" ∧ sessions m !! sid = Some s.
Proof.
  unfold get_client_session, get_session. split.
  - destruct (client_sessions m !! ws) as [sid|] eqn:E; [|discriminate].
    destruct (decide (sid = "")); [discriminate|]. intros H. eauto.
  - intros (sid & E & Hne & H). rewrite E.
    destruct (decide (sid = "")); [contradiction|]. exact H.
Qed.

Lemma sweep_lookup (ks : list string) : ∀ (ss : gmap string Session.t) k s,
  foldl (λ acc session_id, delete session_id acc) ss ks !! k = Some s →
  ss !! k = Some s.
Proof.
  induction ks as [|k0 ks IH]; intros ss k s H; simpl in H; [exact H|].
  apply IH in H. apply lookup_delete_Some in H. tauto.
Qed.

Lemma is_empty_false s ws :
  is_Some (Session.participants s !! ws) → Session.is_empty s = false.
Proof.
  intros [info H]. unfold Session.is_empty, Session.get_participant_count.
  apply Z.eqb_neq. intros Hz.
  assert (Hs : size (Session.participants s) = 0) by lia.
  apply map_size_empty_iff in Hs. rewrite Hs in H. rewrite lookup_empty in H.
  discriminate.
Qed.

(** *** Each operation keeps every session under its own id. *)
Lemma step_keyed now o m : keyed m → keyed (step now o m).
Proof.
  intros K. destruct o as [uuid name maxp | sid ws info | ws | ]; simpl.
  - intros k s H. simpl in H. apply lookup_insert_Some in H.
    destruct H as [[<- <-]|[_ H]]; [reflexivity | eauto].
  - destruct (sessions m !! sid) as [s0|] eqn:E.
    + destruct (Session.is_full s0) eqn:F.
      * rewrite (join_session_full _ _ _ _ _ _ E F). exact K.
      * rewrite (join_session_ok _ _ _ _ _ _ E F). simpl.
        intros k s H. simpl in H. apply lookup_insert_Some in H.
        destruct H as [[<- <-]|[_ H]]; [simpl; eauto | eauto].
    + rewrite (join_session_missing _ _ _ _ _ E). exact K.
  - destruct (get_client_session ws m) as [s0|] eqn:G.
    + destruct (Session.participants s0 !! ws) as [info|] eqn:N.
      * rewrite (leave_session_ok _ _ _ _ G (ex_intro _ info N)). simpl.
        intros k s H. simpl in H.
        destruct (Session.is_empty _) in H.
        -- apply lookup_delete_Some in H. destruct H as [Hne H].
           rewrite lookup_insert_ne in H by exact Hne. eauto.
        -- apply lookup_insert_Some in H.
           destruct H as [[<- <-]|[_ H]]; [reflexivity | eauto].
      * rewrite (leave_session_absent _ _ _ _ G N). exact K.
    + rewrite (leave_session_none _ _ _ G). exact K.
  - intros k s H. simpl in H. apply sweep_lookup in H. eauto.
Qed.

(** *** Each operation keeps the link, if generated ids are fresh. *)
Lemma step_linked now o m :
  keyed m → linked m →
  match o with CreateSession uuid _ _ => fresh uuid m | _ => True end →
  linked (step now o m).
Proof.
  intros K L Hfresh. destruct o as [uuid name maxp | sid ws info | ws | ]; simpl.
  - destruct Hfresh as [_ Hcs]. intros w k s Hw H. simpl in *.
    apply lookup_insert_Some in H.
    destruct H as [[<- <-]|[_ H]]; [exfalso; eapply Hcs; eauto | eauto].
  - destruct (sessions m !! sid) as [s0|] eqn:E.
    + destruct (Session.is_full s0) eqn:F.
      * rewrite (join_session_full _ _ _ _ _ _ E F). exact L.
      * rewrite (join_session_ok _ _ _ _ _ _ E F). simpl.
        intros w k s Hw H. simpl in *.
        apply lookup_insert_Some in Hw. apply lookup_insert_Some in H.
        destruct H as [[<- <-]|[Hk H]]; simpl.
        -- destruct Hw as [[<- _]|[Hne Hw]].
           ++ rewrite lookup_insert_eq. eauto.
           ++ rewrite lookup_insert_ne by exact Hne. eauto.
        -- destruct Hw as [[_ ->]|[_ Hw]]; [congruence | eauto].
    + rewrite (join_session_missing _ _ _ _ _ E). exact L.
  - destruct (get_client_session ws m) as [s0|] eqn:G.
    + destruct (Session.participants s0 !! ws) as [info|] eqn:N.
      * rewrite (leave_session_ok _ _ _ _ G (ex_intro _ info N)). simpl.
        apply get_client_session_Some in G. destruct G as (sid & Hcs & Hne & Hs).
        pose proof (K _ _ Hs) as Hid. rewrite Hid.
        intros w k s Hw H. simpl in *.
        apply lookup_delete_Some in Hw. destruct Hw as [Hwne Hw].
        assert (Hcase : (k = sid ∧ s = Session.without_participant now ws s0) ∨
                        (k ≠ sid ∧ sessions m !! k = Some s)).
        { destruct (Session.is_empty _) in H.
          - apply lookup_delete_Some in H. destruct H as [Hk H].
            rewrite lookup_insert_ne in H by exact Hk. right. split; congruence.
          - apply lookup_insert_Some in H.
            destruct H as [[<- <-]|[Hk H]]; [left; auto | right; split; congruence]. }
        destruct Hcase as [[-> ->]|[Hk H']]; simpl.
        -- rewrite lookup_delete_ne by exact Hwne. eauto.
        -- eauto.
      * rewrite (leave_session_absent _ _ _ _ G N). exact L.
    + rewrite (leave_session_none _ _ _ G). exact L.
  - intros w k s Hw H. simpl in *. apply sweep_lookup in H. eauto.
Qed.

(** *** Without a sweep, every id in the reverse index names a session. *)
Lemma step_present now o m :
  keyed m → linked m → present m → is_sweep o = false → present (step now o m).
Proof.
  intros K L Pr Hns. destruct o as [uuid name maxp | sid ws info | ws | ]; simpl;
    [| | |discriminate].
  - intros w k Hw. simpl in *. apply lookup_insert_is_Some'. right. eauto.
  - destruct (sessions m !! sid) as [s0|] eqn:E.
    + destruct (Session.is_full s0) eqn:F.
      * rewrite (join_session_full _ _ _ _ _ _ E F). exact Pr.
      * rewrite (join_session_ok _ _ _ _ _ _ E F). simpl.
        intros w k Hw. simpl in *. apply lookup_insert_is_Some'.
        apply lookup_insert_Some in Hw.
        destruct Hw as [[_ ->]|[_ Hw]]; [left; reflexivity | right; eauto].
    + rewrite (join_session_missing _ _ _ _ _ E). exact Pr.
  - destruct (get_client_session ws m) as [s0|] eqn:G.
    + destruct (Session.participants s0 !! ws) as [info|] eqn:N.
      * rewrite (leave_session_ok _ _ _ _ G (ex_intro _ info N)). simpl.
        apply get_client_session_Some in G. destruct G as (sid & Hcs & Hne & Hs).
        pose proof (K _ _ Hs) as Hid. rewrite Hid.
        intros w k Hw. simpl in *.
        apply lookup_delete_Some in Hw. destruct Hw as [Hwne Hw].
        destruct (decide (k = sid)) as [->|Hk].
        -- assert (He : Session.is_empty (Session.without_participant now ws s0) = false).
           { apply (is_empty_false _ w). simpl.
             rewrite lookup_delete_ne by exact Hwne. eauto. }
           rewrite He. rewrite lookup_insert_eq. eauto.
        -- destruct (Session.is_empty _).
           ++ rewrite lookup_delete_ne, lookup_insert_ne by congruence. eauto.
           ++ rewrite lookup_insert_ne by congruence. eauto.
      * rewrite (leave_session_absent _ _ _ _ G N). exact Pr.
    + rewrite (leave_session_none _ _ _ G). exact Pr.
Qed.




(** *** Each operation keeps every participant in the reverse index, if
    joins are in turn. *)
Lemma step_indexed now o m :
  keyed m → indexed m → join_in_turn o m → indexed (step now o m).
Proof.
  intros K I T. destruct o as [uuid name maxp | sid ws info | ws | ]; simpl.
  - intros k s w H Hw. simpl in *. apply lookup_insert_Some in H.
    destruct H as [[_ <-]|[_ H]]; [|eauto].
    simpl in Hw. rewrite lookup_empty in Hw. destruct Hw; discriminate.
  - destruct (sessions m !! sid) as [s0|] eqn:E.
    + destruct (Session.is_full s0) eqn:F.
      * rewrite (join_session_full _ _ _ _ _ _ E F). exact I.
      * rewrite (join_session_ok _ _ _ _ _ _ E F). simpl.
        intros k s w H Hw. simpl in *. apply lookup_insert_Some in H.
        destruct (decide (w = ws)) as [->|Hne].
        -- rewrite lookup_insert_eq.
           destruct H as [[<- _]|[Hk H]]; [reflexivity|].
           pose proof (I _ _ _ H Hw) as Hcs.
           destruct T as [T|T]; congruence.
        -- rewrite lookup_insert_ne by congruence.
           destruct H as [[<- <-]|[Hk H]]; [|eauto].
           simpl in Hw. rewrite lookup_insert_ne in Hw by congruence. eauto.
    + rewrite (join_session_missing _ _ _ _ _ E). exact I.
  - destruct (get_client_session ws m) as [s0|] eqn:G.
    + destruct (Session.participants s0 !! ws) as [info|] eqn:N.
      * rewrite (leave_session_ok _ _ _ _ G (ex_intro _ info N)). simpl.
        apply get_client_session_Some in G. destruct G as (sid & Hcs & Hne & Hs).
        pose proof (K _ _ Hs) as Hid. rewrite Hid.
        intros k s w H Hw. simpl in *.
        assert (Hcase : (k = sid ∧ s = Session.without_participant now ws s0) ∨
                        (k ≠ sid ∧ sessions m !! k = Some s)).
        { destruct (Session.is_empty _) in H.
          - apply lookup_delete_Some in H. destruct H as [Hk H].
            rewrite lookup_insert_ne in H by exact Hk. right. split; congruence.
          - apply lookup_insert_Some in H.
            destruct H as [[<- <-]|[Hk H]]; [left; auto | right; split; congruence]. }
        destruct Hcase as [[-> ->]|[Hk H']].
        -- simpl in Hw. destruct (decide (w = ws)) as [->|Hw'].
           ++ rewrite lookup_delete_eq in Hw. destruct Hw; discriminate.
           ++ rewrite lookup_delete_ne in Hw by congruence.
              rewrite lookup_delete_ne by congruence. eauto.
        -- pose proof (I _ _ _ H' Hw) as Hcw.
           assert (w ≠ ws) by congruence.
           rewrite lookup_delete_ne by congruence. exact Hcw.
      * rewrite (leave_session_absent _ _ _ _ G N). exact I.
    + rewrite (leave_session_none _ _ _ G). exact I.
  - intros k s w H Hw. simpl in *. apply sweep_lookup in H. eauto.
Qed.

Lemma run_keyed_linked history : ∀ m,
  keyed m → linked m → uuids_fresh history m →
  keyed (run history m) ∧ linked (run history m).
Proof.
  induction history as [|[now o] history IH]; intros m K L F; simpl; [auto|].
  destruct F as [Fo F]. apply IH; [apply step_keyed | apply step_linked | ]; auto.
Qed.

Lemma run_present history : ∀ m,
  keyed m → linked m → present m → uuids_fresh history m → no_sweep history →
  present (run history m).
Proof.
  induction history as [|[now o] history IH]; intros m K L Pr F N; simpl; [auto|].
  destruct F as [Fo F]. apply Forall_cons in N. destruct N as [No N]. simpl in No.
  apply IH; [apply step_keyed | apply step_linked | apply step_present | | ]; auto.
Qed.

Lemma run_indexed history : ∀ m,
  keyed m → indexed m → one_session_at_a_time history m → indexed (run history m).
Proof.
  induction history as [|[now o] history IH]; intros m K I T; simpl; [auto|].
  destruct T as [To T]. apply IH; [apply step_keyed | apply step_indexed | ]; auto.
Qed.


Lemma init_keyed : keyed init.
Proof. intros k s H. simpl in H. rewrite lookup_empty in H. discriminate. Qed.

Lemma init_linked : linked init.
Proof. intros w k s H. simpl in H. rewrite lookup_empty in H. discriminate. Qed.

Lemma init_present : present init.
Proof. intros w k H. simpl in H. rewrite lookup_empty in H. discriminate. Qed.

Lemma init_indexed : indexed init.
Proof. intros k s w H. simpl in H. rewrite lookup_empty in H. discriminate. Qed.


Lemma consistent_intro m : linked m → present m → indexed m → consistent m.
Proof.
  intros L Pr I w k. split.
  - intros Hw. destruct (Pr _ _ Hw) as [s Hs]. exists s. eauto.
  - intros (s & Hs & Hw). eauto.
Qed.

(** The session is empty once [ws] is out exactly when [ws] was its only
    participant. *)
Lemma is_empty_without now ws s :
  Session.is_empty (Session.without_participant now ws s) = true ↔
  ∀ w, w ≠ ws → Session.participants s !! w = None.
Proof.
  unfold Session.is_empty, Session.get_participant_count. simpl.
  rewrite Z.eqb_eq. split.
  - intros Hz w Hne.
    assert (Hs : size (delete ws (Session.participants s)) = 0) by lia.
    apply map_size_empty_iff in Hs.
    rewrite <- (lookup_delete_ne (Session.participants s) ws w) by congruence.
    rewrite Hs. apply lookup_empty.
  - intros Hall.
    assert (Hs : delete ws (Session.participants s) = ∅).
    { apply map_eq. intros w. rewrite lookup_empty.
      destruct (decide (w = ws)) as [->|Hne]; [apply lookup_delete_eq|].
      rewrite lookup_delete_ne by congruence. auto. }
    rewrite Hs, map_size_empty. reflexivity.
Qed.

(** C2, in the form that holds of the code.
    After any history of create (with ids that do not repeat), join,
    leave and sweep operations on a new manager, a client whose
    reverse-index entry names a session that is still in the session map
    is a participant of that session.  If the history has no sweep, every
    entry of the reverse index names a session of the map.  If no client
    joins a session while the reverse index has it in another one, every
    participant of a session is in the reverse index under that session.
    With both, the reverse index gives a session for a client exactly
    when the client is a participant of it. *)
Theorem reverse_index_linked history :
  uuids_fresh history init →
  let m := run history init in
  linked m ∧
  (no_sweep history → present m) ∧
  (one_session_at_a_time history init → indexed m) ∧
  (no_sweep history → one_session_at_a_time history init → consistent m).
Proof.
  intros F m.
  destruct (run_keyed_linked history init init_keyed init_linked F) as [K L].
  fold m in K, L.
  assert (P : no_sweep history → present m).
  { intros N. apply run_present; auto using init_keyed, init_linked, init_present. }
  assert (I : one_session_at_a_time history init → indexed m).
  { intros T. apply run_indexed; auto using init_keyed, init_indexed. }
  split; [exact L|]. split; [exact P|]. split; [exact I|].
  intros N T. apply consistent_intro; auto.
Qed.


(** C5, in the form that holds of the code.
    On a manager reached by any history from a new one (with ids that do
    not repeat): when the reverse index gives no session of the map for
    the client, and in particular when the client is a participant of no
    session, [leave_session] returns false and the manager is unchanged.
    When the reverse index gives the session [s], the client is a
    participant of [s], [leave_session] returns true, the reverse-index
    entry is gone and no other session is touched; if [s] has another
    participant, the map holds under the id of [s] the session without
    the client and with the activity stamp set to the clock; if the client
    was the only participant, the map no longer holds the id, so that
    [get_session] finds nothing. *)
Theorem leave_session_behaviour history now ws :
  uuids_fresh history init →
  let m := run history init in
  (get_client_session ws m = None → leave_session now ws m = (false, m)) ∧
  ((∀ k s, sessions m !! k = Some s → Session.participants s !! ws = None) →
   leave_session now ws m = (false, m)) ∧
  (∀ s, get_client_session ws m = Some s →
     let sid := Session.session_id s in
     let m' := (leave_session now ws m).2 in
     (leave_session now ws m).1 = true ∧
     sessions m !! sid = Some s ∧
     is_Some (Session.participants s !! ws) ∧
     client_sessions m' = delete ws (client_sessions m) ∧
     (∀ k, k ≠ sid → sessions m' !! k = sessions m !! k) ∧
     ((∃ w, w ≠ ws ∧ is_Some (Session.participants s !! w)) →
        ∃ s', get_session sid m' = Some s' ∧
              Session.participants s' = delete ws (Session.participants s) ∧
              Session.last_activity s' = now ∧
              Session.session_id s' = sid ∧
              Session.max_participants s' = Session.max_participants s) ∧
     ((∀ w, w ≠ ws → Session.participants s !! w = None) →
        get_session sid m' = None)).
Proof.
  intros F m.
  destruct (run_keyed_linked history init init_keyed init_linked F) as [K L].
  fold m in K, L. split; [apply leave_session_none|]. split.
  - intros Hnone. destruct (get_client_session ws m) as [s|] eqn:G.
    + apply (leave_session_absent _ _ _ _ G).
      apply get_client_session_Some in G. destruct G as (sid & _ & _ & Hs). eauto.
    + apply leave_session_none. exact G.
  - intros s G sid m'.
    pose proof G as G'. apply get_client_session_Some in G'.
    destruct G' as (k0 & Hcs & Hne & Hs).
    assert (Hid : sid = k0) by (apply K; exact Hs).
    assert (Hin : is_Some (Session.participants s !! ws)) by eauto.
    subst m'. rewrite (leave_session_ok _ _ _ _ G Hin). simpl. fold sid.
    split; [reflexivity|]. split; [rewrite Hid; exact Hs|]. split; [exact Hin|].
    split; [reflexivity|].
    pose proof (is_empty_without now ws s) as He.
    split; [|split].
    + intros k Hk. destruct (Session.is_empty _).
      * rewrite lookup_delete_ne, lookup_insert_ne by congruence. reflexivity.
      * rewrite lookup_insert_ne by congruence. reflexivity.
    + intros (w & Hw & Hp).
      destruct (Session.is_empty _) eqn:Em.
      * exfalso. destruct Hp as [info Hp].
        rewrite (proj1 He eq_refl w Hw) in Hp. discriminate.
      * eexists. unfold get_session. simpl.
        split; [apply lookup_insert_eq|]. simpl. auto.
    + intros Honly. rewrite (proj2 He Honly).
      unfold get_session. simpl. apply lookup_delete_eq.
Qed.

End session_manager_facts.

Section session_manager_examples.
Import SessionManager Examples.

Lemma call_history_fresh : uuids_fresh call_history init.
Proof.
  cbn [uuids_fresh call_history]. repeat split; try exact I.
  intros w. simpl. rewrite lookup_empty. discriminate.
Qed.

Lemma abandoned_history_fresh : uuids_fresh abandoned_history init.
Proof.
  cbn [uuids_fresh abandoned_history]. repeat split; try exact I.
  intros w. simpl. rewrite lookup_empty. discriminate.
Qed.

Lemma lone_participant_history_fresh : uuids_fresh lone_participant_history init.
Proof.
  cbn [uuids_fresh lone_participant_history]. repeat split; try exact I.
  intros w. simpl. rewrite lookup_empty. discriminate.
Qed.

Lemma double_join_history_fresh : uuids_fresh double_join_history init.
Proof.
  cbn [uuids_fresh double_join_history]. repeat split; try exact I.
  - intros w. simpl. rewrite lookup_empty. discriminate.
  - intros w. simpl. rewrite lookup_empty. discriminate.
Qed.

Lemma call_history_in_turn : one_session_at_a_time call_history init.
Proof.
  cbn [one_session_at_a_time call_history join_in_turn].
  repeat split; try exact I; left; vm_compute; reflexivity.
Qed.

End session_manager_examples.

(** The specification's link fails in both directions.  After the sweep
    the reverse index still has client 1 under a session that is gone;
    and, with no sweep at all, a client that joined a second session and
    left it is a participant of the first session with no entry in the
    reverse index. *)
Lemma reverse_index_not_consistent :
  (SessionManager.uuids_fresh Examples.abandoned_history SessionManager.init ∧
   ¬ SessionManager.consistent
       (SessionManager.run Examples.abandoned_history SessionManager.init)) ∧
  (SessionManager.uuids_fresh Examples.double_join_history SessionManager.init ∧
   SessionManager.no_sweep Examples.double_join_history ∧
   ¬ SessionManager.consistent
       (SessionManager.run Examples.double_join_history SessionManager.init)).
Proof.
  split; [split; [apply abandoned_history_fresh|] | split; [|split]].
  - intros C. destruct (proj1 (C 1 Examples.uuid1)) as (s & Hs & _).
    + vm_compute. reflexivity.
    + vm_compute in Hs. discriminate.
  - apply double_join_history_fresh.
  - repeat constructor.
  - intros C. assert (H : SessionManager.client_sessions
                (SessionManager.run Examples.double_join_history SessionManager.init)
                !! 1 = Some Examples.uuid1).
    { apply C. eexists. split; [vm_compute; reflexivity|]. vm_compute. eauto. }
    vm_compute in H. discriminate.
Qed.

Lemma reverse_index_linked_witness :
  SessionManager.linked (SessionManager.run Examples.call_history SessionManager.init) ∧
  SessionManager.consistent (SessionManager.run Examples.call_history SessionManager.init).
Proof.
  destruct (reverse_index_linked Examples.call_history call_history_fresh)
    as (L & _ & _ & C).
  split; [exact L|]. apply C; [repeat constructor | apply call_history_in_turn].
Defined.



(** Client 1 is a participant of the first session, and [leave_session]
    answers false and removes it from nothing. *)
Lemma orphaned_participant_cannot_leave :
  let m := SessionManager.run Examples.double_join_history SessionManager.init in
  SessionManager.uuids_fresh Examples.double_join_history SessionManager.init ∧
  SessionManager.get_session_participants Examples.uuid1 m = [1] ∧
  SessionManager.leave_session 4000 1 m = (false, m).
Proof.
  split; [apply double_join_history_fresh|]. split; vm_compute; reflexivity.
Qed.

Lemma leave_session_behaviour_witness :
  let m := SessionManager.run Examples.lone_participant_history SessionManager.init in
  (SessionManager.leave_session 5000 1 m).1 = true ∧
  SessionManager.get_session Examples.uuid1 (SessionManager.leave_session 5000 1 m).2 = None ∧
  SessionManager.leave_session 5000 7 m = (false, m).
Proof.
  intros m.
  destruct (SessionManager.get_client_session 1 m) as [s|] eqn:G;
    [|vm_compute in G; discriminate].
  pose proof G as G2. vm_compute in G2. injection G2 as G2. subst s.
  destruct (leave_session_behaviour Examples.lone_participant_history 5000 1
              lone_participant_history_fresh) as (_ & _ & H).
  destruct (leave_session_behaviour Examples.lone_participant_history 5000 7
              lone_participant_history_fresh) as (H7 & _ & _).
  destruct (H _ G) as (Ok & _ & _ & _ & _ & _ & Gone).
  split; [exact Ok|]. split.
  - apply Gone. apply (proj1 (is_empty_without 5000 1 _)). vm_compute. reflexivity.
  - apply H7. vm_compute. reflexivity.
Defined.

Section streaming_transcriber_facts.
Import StreamingTranscriber.
Variable whisper : nat → string → bytes → option string.
Variable callback : option (string → Q → bool).
Implicit Types (x : StreamingTranscriber.t) (i : nat).

Lemma take_audio_fields x :
  let x1 := (take_audio x).2 in
  threads x1 = threads x ∧ running x1 = running x ∧
  recognizer_calls x1 = recognizer_calls x ∧
  source_language x1 = source_language x ∧
  transcription_queue x1 = transcription_queue x ∧
  log x1 = log x.
Proof.
  unfold take_audio.
  destruct (AudioBuffer.get_new_audio (audio_buffer x)) as [[data|] b]; simpl.
  - destruct (Z.of_nat (length data) <? 8000)%Z; simpl; auto 10.
  - auto 10.
Qed.

Lemma take_audio_result x :
  (take_audio x).1 =
  match (AudioBuffer.get_new_audio (audio_buffer x)).1 with
  | Some data => if (8000 <=? Z.of_nat (length data))%Z then Some data else None
  | None => None
  end.
Proof.
  unfold take_audio.
  destruct (AudioBuffer.get_new_audio (audio_buffer x)) as [[data|] b]; simpl; [|reflexivity].
  destruct (Z.ltb_spec (Z.of_nat (length data)) 8000),
           (Z.leb_spec 8000 (Z.of_nat (length data))); simpl; auto; lia.
Qed.

Lemma recognise_and_publish_fields data x :
  let x1 := recognise_and_publish whisper callback data x in
  threads x1 = threads x ∧ running x1 = running x ∧
  recognizer_calls x1 = recognizer_calls x ++ [(source_language x, data)].
Proof.
  unfold recognise_and_publish, _transcribe_audio_chunk.
  destruct (whisper _ _ _) as [text|]; simpl;
    destruct callback as [f|]; simpl; auto;
    match goal with |- context [str_bool ?a] => destruct (str_bool a) end; simpl; auto;
    match goal with |- context [f ?a ?b] => destruct (f a b) end; simpl; auto.
Qed.

Lemma recognise_and_publish_failure data x :
  whisper (length (recognizer_calls x)) (source_language x) data = None →
  let x1 := recognise_and_publish whisper callback data x in
  log x1 = log x ++ [TranscriptionError] ∧
  transcription_queue x1 = transcription_queue x ++ [("", 0%Q)] ∧
  callback_calls x1 = callback_calls x.
Proof.
  intros Hfail. unfold recognise_and_publish, _transcribe_audio_chunk.
  rewrite Hfail. simpl. destruct callback as [f|]; simpl; auto.
Qed.

Lemma thread_step_running i x : running (thread_step whisper callback i x) = running x.
Proof.
  unfold thread_step. destruct (threads x !! i) as [[| |data|]|]; simpl; auto.
  - destruct (running x) eqn:R; simpl; exact R.
  - pose proof (take_audio_fields x) as (_ & R & _).
    destruct (take_audio x) as [[data|] x1]; simpl in *; exact R.
  - apply (recognise_and_publish_fields data x).
Qed.

(** The program counter of thread [i] after one of its steps. *)
Lemma thread_step_pc i x pc :
  threads x !! i = Some pc →
  threads (thread_step whisper callback i x) !! i =
    Some match pc with
         | AtTest => if running x then Sleeping else Exited
         | Sleeping => match (take_audio x).1 with
                       | Some data => Recognising data
                       | None => AtTest
                       end
         | Recognising _ => AtTest
         | Exited => Exited
         end.
Proof.
  intros Hpc. pose proof (lookup_lt_Some _ _ _ Hpc) as Hlt.
  unfold thread_step. rewrite Hpc. destruct pc as [| |data|]; simpl.
  - destruct (running x); simpl; apply list_lookup_insert_eq; exact Hlt.
  - pose proof (take_audio_fields x) as (T & _).
    destruct (take_audio x) as [[data|] x1]; simpl in *;
      apply list_lookup_insert_eq; rewrite T; exact Hlt.
  - pose proof (recognise_and_publish_fields data x) as (T & _). simpl in T.
    apply list_lookup_insert_eq. rewrite T. exact Hlt.
  - exact Hpc.
Qed.

Lemma thread_step_steps_left i x :
  running x = false →
  steps_left i (thread_step whisper callback i x) ≤ pred (steps_left i x).
Proof.
  intros R. unfold steps_left at 2.
  destruct (threads x !! i) as [pc|] eqn:Hpc.
  - unfold steps_left. rewrite (thread_step_pc _ _ _ Hpc).
    destruct pc; simpl; rewrite ?R; simpl; try lia.
    destruct (take_audio x).1; simpl; lia.
  - unfold thread_step, steps_left. rewrite Hpc, Hpc. lia.
Qed.

Lemma is_alive_steps_left i x : is_alive i x = false ↔ steps_left i x = 0.
Proof.
  unfold is_alive, steps_left.
  destruct (threads x !! i) as [[| | |]|]; simpl; split; auto; discriminate.
Qed.

Lemma iter_thread_step n i x :
  running x = false → steps_left i x ≤ n →
  is_alive i (Nat.iter n (thread_step whisper callback i) x) = false.
Proof.
  revert x. induction n as [|n IH]; intros x R Hn.
  - simpl. apply is_alive_steps_left. lia.
  - rewrite Nat.iter_succ_r. apply IH.
    + rewrite thread_step_running. exact R.
    + pose proof (thread_step_steps_left i x R). lia.
Qed.

Lemma join_running i budget x : running (join whisper callback i budget x) = running x.
Proof.
  revert x. induction budget as [|b IH]; intros x; simpl; [reflexivity|].
  destruct (is_alive i x); [|reflexivity].
  rewrite IH. apply thread_step_running.
Qed.

Lemma join_exits i budget x :
  running x = false → steps_left i x ≤ budget →
  is_alive i (join whisper callback i budget x) = false.
Proof.
  revert x. induction budget as [|b IH]; intros x R Hn; simpl.
  - apply is_alive_steps_left. lia.
  - destruct (is_alive i x) eqn:A; [|exact A].
    apply IH.
    + rewrite thread_step_running. exact R.
    + pose proof (thread_step_steps_left i x R). lia.
Qed.

Lemma steps_left_le_3 i x : steps_left i x ≤ 3.
Proof.
  unfold steps_left. destruct (threads x !! i) as [[| | |]|]; simpl; lia.
Qed.

(** C7, in the form that holds of the code.
    A pass of the recognition loop calls the recogniser
    only when the bytes taken from the buffer amount to at least 8000,
    and then exactly once, on those bytes; the threshold applies to the
    total that accumulated, so three chunks of 2000 bytes cause no call
    while five chunks of 2000 bytes, 10000 bytes together, cause one. *)
Theorem recognition_threshold :
  (∀ x,
     recognizer_calls (_process_audio_pass whisper callback x) =
     recognizer_calls x ++
     match (AudioBuffer.get_new_audio (audio_buffer x)).1 with
     | Some data =>
         if (8000 <=? Z.of_nat (length data))%Z then [(source_language x, data)] else []
     | None => []
     end) ∧
  recognizer_calls (_process_audio_pass whisper callback (Examples.buffered 3)) = [] ∧
  recognizer_calls (_process_audio_pass whisper callback (Examples.buffered 5)) =
    [("en", concat (replicate 5 Examples.chunk2000))].
Proof.
  assert (G : ∀ x,
     recognizer_calls (_process_audio_pass whisper callback x) =
     recognizer_calls x ++
     match (AudioBuffer.get_new_audio (audio_buffer x)).1 with
     | Some data =>
         if (8000 <=? Z.of_nat (length data))%Z then [(source_language x, data)] else []
     | None => []
     end).
  { intros x. unfold _process_audio_pass.
    pose proof (take_audio_result x) as Hr.
    pose proof (take_audio_fields x) as (_ & _ & C & Lg & _).
    destruct (take_audio x) as [r x1]. simpl in *. subst r.
    destruct (AudioBuffer.get_new_audio (audio_buffer x)).1 as [data|]; simpl.
    - destruct (8000 <=? Z.of_nat (length data))%Z.
      + pose proof (recognise_and_publish_fields data x1) as (_ & _ & C').
        simpl in C'. rewrite C', C, Lg. reflexivity.
      + rewrite C, app_nil_r. reflexivity.
    - rewrite C, app_nil_r. reflexivity. }
  split; [exact G|]. split; rewrite G; vm_compute; reflexivity.
Qed.

(** C8, in the form that holds of the code.
    When the recogniser raises, the exception is caught
    and logged inside [_transcribe_audio_chunk], which answers the pair
    of the empty text and 0.0; the loop puts that pair on the result
    queue, does not call the callback, leaves the running flag alone and
    goes back to its test.  A thread leaves the loop only at that test,
    with the flag false: no failure of the recogniser ends it. *)
Theorem recognizer_failure_is_survived :
  (∀ x data,
     whisper (length (recognizer_calls x)) (source_language x) data = None →
     let x' := recognise_and_publish whisper callback data x in
     log x' = log x ++ [TranscriptionError] ∧
     transcription_queue x' = transcription_queue x ++ [("", 0%Q)] ∧
     callback_calls x' = callback_calls x ∧
     running x' = running x ∧
     ∀ i, threads x !! i = Some (Recognising data) →
          threads (thread_step whisper callback i x) !! i = Some AtTest) ∧
  (∀ x i,
     threads (thread_step whisper callback i x) !! i = Some Exited →
     threads x !! i = Some Exited ∨
     (threads x !! i = Some AtTest ∧ running x = false)).
Proof.
  split.
  - intros x data Hfail x'.
    destruct (recognise_and_publish_failure data x Hfail) as (L & Q & C).
    pose proof (recognise_and_publish_fields data x) as (_ & R & _).
    repeat split; auto.
    intros i Hpc. rewrite (thread_step_pc _ _ _ Hpc). reflexivity.
  - intros x i H. destruct (threads x !! i) as [pc|] eqn:Hpc.
    + rewrite (thread_step_pc _ _ _ Hpc) in H. destruct pc; simpl in H.
      * destruct (running x); [discriminate | auto].
      * destruct (take_audio x).1; discriminate.
      * discriminate.
      * auto.
    + unfold thread_step in H. rewrite Hpc in H. congruence.
Qed.

(** C9, in the form that holds of the code.
    The generator yields an item only when it finds the
    running flag true; once it finds the flag false it returns, and a
    returned generator yields nothing more.  [stop] clears the flag,
    waits for the thread for a bounded time, forgets the thread and
    clears the audio buffer; from then on every thread of the controller
    returns within three of its own steps (the rest of the pass it is
    in, then the test of the flag), and the thread that was waited for
    has returned when [stop] returns if the wait allowed it three
    steps. *)
Theorem stop_ends_results_and_loop :
  (∀ g x item g' x',
     get_transcriptions g x = (Yield item, g', x') →
     g = Suspended ∧ running x = true) ∧
  (∀ g x, running x = false → get_transcriptions g x = (StopIteration, Returned, x)) ∧
  (∀ x, get_transcriptions Returned x = (StopIteration, Returned, x)) ∧
  (∀ budget x,
     let x' := stop whisper callback budget x in
     running x' = false ∧
     processing_thread x' = None ∧
     AudioBuffer.buffer (audio_buffer x') = [] ∧
     (∀ i, is_alive i (Nat.iter 3 (thread_step whisper callback i) x') = false) ∧
     (∀ i, processing_thread x = Some i → 3 ≤ budget → is_alive i x' = false)).
Proof.
  split; [|split; [|split]].
  - intros g x item g' x' H. unfold get_transcriptions in H.
    destruct g; [|discriminate].
    destruct (running x); [|discriminate]. auto.
  - intros g x R. unfold get_transcriptions. rewrite R. destruct g; reflexivity.
  - reflexivity.
  - intros budget x x'.
    assert (R : running x' = false).
    { subst x'. unfold stop. simpl.
      destruct (processing_thread x); simpl; [|reflexivity].
      apply join_running. }
    split; [exact R|]. split; [|split; [|split]].
    + subst x'. unfold stop. simpl. destruct (processing_thread x) eqn:E; simpl; auto.
    + reflexivity.
    + intros i. apply iter_thread_step; [exact R | apply steps_left_le_3].
    + intros i Hi Hb. subst x'. unfold stop. simpl. rewrite Hi.
      unfold is_alive. simpl.
      apply (join_exits i budget (set_running false x)); [reflexivity|].
      pose proof (steps_left_le_3 i (set_running false x)). lia.
Qed.

End streaming_transcriber_facts.

(** Five chunks of 2000 bytes are 10000 bytes: the pass calls the
    recogniser. *)
Lemma five_chunks_trigger_recognition :
  let x := Examples.buffered 5 in
  let chunks := AudioBuffer.buffer (StreamingTranscriber.audio_buffer x) in
  length chunks = 5 ∧
  forallb (λ c, (Z.of_nat (length c) =? 2000)%Z) chunks = true ∧
  StreamingTranscriber.recognizer_calls x = [] ∧
  length (StreamingTranscriber.recognizer_calls
     (StreamingTranscriber._process_audio_pass Examples.hello_whisper None x)) = 1.
Proof. repeat split; vm_compute; reflexivity. Qed.

(** The pair that stands for a failed recognition is put on the result
    queue. *)
Lemma failed_recognition_is_queued :
  StreamingTranscriber.transcription_queue (Examples.buffered 5) = [] ∧
  StreamingTranscriber.transcription_queue
    (StreamingTranscriber._process_audio_pass Examples.failing_whisper None
       (Examples.buffered 5)) = [("", 0%Q)].
Proof. split; vm_compute; reflexivity. Qed.

Lemma recognizer_failure_is_survived_witness :
  let x := (StreamingTranscriber.take_audio (Examples.buffered 5)).2 in
  let x' := StreamingTranscriber.recognise_and_publish Examples.failing_whisper None
              (concat (replicate 5 Examples.chunk2000)) x in
  StreamingTranscriber.log x' = [StreamingTranscriber.TranscriptionError] ∧
  StreamingTranscriber.running x' = StreamingTranscriber.running x.
Proof.
  intros x x'.
  destruct (proj1 (recognizer_failure_is_survived Examples.failing_whisper None)
              x (concat (replicate 5 Examples.chunk2000)) eq_refl) as (L & _ & _ & R & _).
  split; [exact L | exact R].
Defined.

(** [stop] on a started controller whose thread is inside a recognition
    call that outlasts the wait: the thread is still in the loop when
    [stop] has returned. *)
Lemma stop_can_return_with_loop_running :
  StreamingTranscriber.running Examples.mid_recognition = true ∧
  StreamingTranscriber.processing_thread Examples.mid_recognition = Some 0 ∧
  ¬ StreamingTranscriber.no_loop_running
      (StreamingTranscriber.stop Examples.failing_whisper None 0 Examples.mid_recognition).
Proof.
  split; [vm_compute; reflexivity|]. split; [vm_compute; reflexivity|].
  intros H. specialize (H 0). vm_compute in H. discriminate.
Qed.

Lemma stop_ends_results_and_loop_witness :
  StreamingTranscriber.is_alive 0
    (StreamingTranscriber.stop Examples.failing_whisper None 3 Examples.mid_recognition)
  = false.
Proof.
  apply (proj2 (proj2 (proj2 (stop_ends_results_and_loop Examples.failing_whisper None)))
           3 Examples.mid_recognition).
  - vm_compute. reflexivity.
  - lia.
Defined.

Section endpoint_facts.
Import Main.
Variable whisper : nat → string → bytes → option string.
Variable join_budget : nat.
Implicit Types (srv : Main.t) (ws : WebSocket).

Lemma cleanup_session_manager ws srv :
  session_manager (cleanup whisper join_budget ws srv) = session_manager srv.
Proof.
  unfold cleanup. simpl.
  repeat match goal with
         | |- context [match ?o with Some _ => _ | None => _ end] => destruct o; simpl
         | |- context [if ?b then _ else _] => destruct b; simpl
         end; reflexivity.
Qed.

(** C1, in the form that holds of the code.
    The [finally] block of the endpoint stops the
    transcription controller of the connection, removes the connection
    from the active connections, discards its config, removes its
    message queue and cancels its transcription task, in this order; it
    does not touch the session manager: a client that drops while in a
    session stays a participant of it, and what
    [get_other_session_participants] answers to anyone is what it
    answered before the drop. *)
Theorem disconnect_cleanup ws srv x c :
  active_transcribers srv !! ws = Some x →
  ws ∈ active_connections srv →
  client_configs srv !! ws = Some c →
  client_id c ≠ "" →
  let srv' := cleanup whisper join_budget ws srv in
  effects srv' =
    effects srv ++
    [TranscriberStopped ws (StreamingTranscriber.stop whisper None join_budget x);
     ConnectionRemoved ws;
     ConfigDiscarded ws;
     QueueRemoved (client_id c);
     TranscriptionTaskCancelled ws] ∧
  active_transcribers srv' = delete ws (active_transcribers srv) ∧
  active_connections srv' = list_remove ws (active_connections srv) ∧
  client_configs srv' = delete ws (client_configs srv) ∧
  ClientMessageManager.queues (message_manager srv') !! client_id c = None ∧
  session_manager srv' = session_manager srv ∧
  ∀ peer,
    SessionManager.get_other_session_participants peer (session_manager srv') =
    SessionManager.get_other_session_participants peer (session_manager srv).
Proof.
  intros Ht Hc Hcfg Hid srv'.
  assert (Hsm : session_manager srv' = session_manager srv)
    by apply cleanup_session_manager.
  subst srv'. unfold cleanup in *. rewrite Ht, Hcfg in *. simpl in *.
  destruct (decide (ws ∈ active_connections srv)) as [_|Hn]; [|contradiction].
  simpl in *. rewrite Hcfg in *. simpl in *.
  destruct (decide (client_id c = "")) as [He|_]; [contradiction|]. simpl in *.
  split; [|split; [|split; [|split; [|split; [|split]]]]];
    try reflexivity; try exact Hsm;
    try (rewrite <- !app_assoc; reflexivity);
    try (intros peer; rewrite Hsm; reflexivity).
  unfold ClientMessageManager.remove_client.
  destruct (ClientMessageManager.queues (message_manager srv) !! client_id c) eqn:Q;
    simpl; [apply lookup_delete_eq | exact Q].
Qed.

(** One pass on a queue whose only processor is [process_audio ws]. *)
Lemma _process_queue_pass_cons srv client ws c q x chunk rest :
  ClientMessageManager.queues (message_manager srv) !! client = Some q →
  MessageQueue.queue q = chunk :: rest →
  MessageQueue._processors q = [process_audio ws] →
  client_configs srv !! ws = Some c →
  active_transcribers srv !! ws = Some x →
  let srv' := _process_queue_pass client srv in
  (∃ q', ClientMessageManager.queues (message_manager srv') !! client = Some q' ∧
         MessageQueue.queue q' = rest ∧
         MessageQueue._processors q' = [process_audio ws]) ∧
  client_configs srv' !! ws = Some c ∧
  active_transcribers srv' !! ws =
    Some (if decide (role c = "speaker")
          then StreamingTranscriber.add_audio_chunk chunk x else x).
Proof.
  intros Hq Hqueue Hp Hc Hx srv'. subst srv'.
  unfold _process_queue_pass. rewrite Hq, Hqueue, Hp. simpl.
  rewrite Hc. destruct (decide (role c = "speaker")); simpl.
  - split; [|split].
    + eexists. split; [apply lookup_insert_eq|]. simpl. auto.
    + exact Hc.
    + rewrite lookup_alter_eq, Hx. reflexivity.
  - split; [|split].
    + eexists. split; [apply lookup_insert_eq|]. simpl. auto.
    + exact Hc.
    + exact Hx.
Qed.

Lemma drain_chunks (chunks : list bytes) : ∀ srv client ws c q x,
  ClientMessageManager.queues (message_manager srv) !! client = Some q →
  MessageQueue.queue q = chunks →
  MessageQueue._processors q = [process_audio ws] →
  client_configs srv !! ws = Some c →
  active_transcribers srv !! ws = Some x →
  let srv' := drain (length chunks) client srv in
  (∃ q', ClientMessageManager.queues (message_manager srv') !! client = Some q' ∧
         MessageQueue.queue q' = []) ∧
  active_transcribers srv' !! ws =
    Some (if decide (role c = "speaker")
          then foldl (λ acc chunk, StreamingTranscriber.add_audio_chunk chunk acc) x chunks
          else x).
Proof.
  induction chunks as [|chunk rest IH]; intros srv client ws c q x Hq Hqueue Hp Hc Hx; simpl.
  - split; [eauto|]. rewrite Hx. destruct (decide (role c = "speaker")); reflexivity.
  - unfold drain. change (Nat.iter (S (length rest)) ?f ?a) with (f (Nat.iter (length rest) f a)).
    rewrite <- Nat.iter_succ, Nat.iter_succ_r.
    destruct (_process_queue_pass_cons srv client ws c q x chunk rest Hq Hqueue Hp Hc Hx)
      as ((q' & Hq' & Hqueue' & Hp') & Hc' & Hx').
    destruct (IH _ client ws c q' _ Hq' Hqueue' Hp' Hc' Hx') as (E & T).
    split; [exact E|]. unfold drain in T. rewrite T.
    destruct (decide (role c = "speaker")); reflexivity.
Qed.

Lemma add_audio_chunks_buffer (chunks : list bytes) : ∀ x,
  AudioBuffer.buffer (StreamingTranscriber.audio_buffer
    (foldl (λ acc chunk, StreamingTranscriber.add_audio_chunk chunk acc) x chunks)) =
  AudioBuffer.buffer (StreamingTranscriber.audio_buffer x) ++ chunks.
Proof.
  induction chunks as [|chunk rest IH]; intros x; simpl.
  - rewrite app_nil_r. reflexivity.
  - rewrite IH. simpl. rewrite <- app_assoc. reflexivity.
Qed.

(** C10.  Whether a queued chunk reaches the transcriber is decided by
    the role that the config of the connection holds when the chunk is
    taken off the queue.  Whatever the role was when the chunks arrived:
    draining a queue of chunks while the role is speaker appends all of
    them, in order, to the audio buffer of the transcriber; draining it
    while the role is anything else empties the queue and leaves the
    transcriber as it was. *)
Theorem role_read_at_dequeue srv client ws c q x (chunks : list bytes) :
  ClientMessageManager.queues (message_manager srv) !! client = Some q →
  MessageQueue.queue q = chunks →
  MessageQueue._processors q = [process_audio ws] →
  client_configs srv !! ws = Some c →
  active_transcribers srv !! ws = Some x →
  let srv' := drain (length chunks) client srv in
  (∃ q', ClientMessageManager.queues (message_manager srv') !! client = Some q' ∧
         MessageQueue.queue q' = []) ∧
  (role c = "speaker" →
     ∃ x', active_transcribers srv' !! ws = Some x' ∧
           AudioBuffer.buffer (StreamingTranscriber.audio_buffer x') =
           AudioBuffer.buffer (StreamingTranscriber.audio_buffer x) ++ chunks) ∧
  (role c ≠ "speaker" → active_transcribers srv' !! ws = Some x).
Proof.
  intros Hq Hqueue Hp Hc Hx srv'.
  destruct (drain_chunks chunks srv client ws c q x Hq Hqueue Hp Hc Hx) as (E & T).
  fold srv' in E, T. split; [exact E|]. split.
  - intros R. destruct (decide (role c = "speaker")); [|contradiction].
    eexists. split; [exact T|]. apply add_audio_chunks_buffer.
  - intros R. destruct (decide (role c = "speaker")); [contradiction|]. exact T.
Qed.

End endpoint_facts.

(** Client 1 has dropped, and client 2 is still told that client 1 is the
    other participant of its session. *)
Lemma dropped_client_still_listed :
  let before := Main.run Examples.failing_whisper 0 Examples.two_party_call Main.init in
  let after := Main.run Examples.failing_whisper 0 Examples.drop_of_client_1 Main.init in
  SessionManager.get_other_session_participants 2 (Main.session_manager before) = [1] ∧
  Main.client_configs after !! 1 = None ∧
  SessionManager.get_other_session_participants 2 (Main.session_manager after) = [1].
Proof. repeat split; vm_compute; reflexivity. Qed.

Lemma disconnect_cleanup_witness :
  let srv := Main.run Examples.failing_whisper 0 Examples.two_party_call Main.init in
  let srv' := Main.cleanup Examples.failing_whisper 0 1 srv in
  Main.active_connections srv' = [2] ∧
  SessionManager.get_other_session_participants 2 (Main.session_manager srv') = [1].
Proof.
  intros srv srv'.
  destruct (disconnect_cleanup Examples.failing_whisper 0 1 srv
              StreamingTranscriber.init
              (Main.mkConfig "en" "es" "speaker" "1" (Some Examples.uuid1) "User-1"))
    as (_ & _ & Hconn & _ & _ & _ & Hpeer).
  - vm_compute. reflexivity.
  - vm_compute. constructor.
  - vm_compute. reflexivity.
  - discriminate.
  - split.
    + fold srv' in Hconn. rewrite Hconn. vm_compute. reflexivity.
    + fold srv' in Hpeer. rewrite Hpeer. vm_compute. reflexivity.
Defined.

Lemma role_read_at_dequeue_witness :
  let srv := Main.run Examples.failing_whisper 0 Examples.listener_turns_speaker Main.init in
  ∃ x', Main.active_transcribers (Main.drain 2 "1" srv) !! 1 = Some x' ∧
        AudioBuffer.buffer (StreamingTranscriber.audio_buffer x') =
        [Examples.chunk_a; Examples.chunk_b].
Proof.
  intros srv.
  destruct (role_read_at_dequeue srv "1" 1
              (Main.mkConfig "en" "es" "speaker" "1" None "User-1")
              (MessageQueue.mk [Examples.chunk_a; Examples.chunk_b] 100 false
                 [Main.process_audio 1] true)
              StreamingTranscriber.init
              [Examples.chunk_a; Examples.chunk_b])
    as (_ & H & _); try (vm_compute; reflexivity).
  exact (H eq_refl).
Defined.

(** The other direction: chunks that arrived while client 1 was a speaker
    are taken off the queue and dropped once it has turned listener. *)
Lemma speaker_turns_listener_example :
  let srv := Main.run Examples.failing_whisper 0 Examples.speaker_turns_listener Main.init in
  (MessageQueue.queue <$> ClientMessageManager.queues (Main.message_manager srv) !! "1")
    = Some [Examples.chunk_a; Examples.chunk_b] ∧
  (MessageQueue.queue <$>
     ClientMessageManager.queues (Main.message_manager (Main.drain 2 "1" srv)) !! "1")
    = Some [] ∧
  Main.active_transcribers (Main.drain 2 "1" srv) !! 1 = Some StreamingTranscriber.init.
Proof. repeat split; vm_compute; reflexivity. Qed.

(** ** Further properties of the code *)

Section session_manager_more.
Import SessionManager.
Implicit Types (m : SessionManager.t) (s : Session.t) (ws : WebSocket).

Lemma sweep_lookup_full (ks : list string) : ∀ (ss : gmap string Session.t) k,
  foldl (λ acc session_id, delete session_id acc) ss ks !! k =
  if decide (k ∈ ks) then None else ss !! k.
Proof.
  induction ks as [|k0 ks IH]; intros ss k; simpl.
  - destruct (decide (k ∈ [])) as [H|_]; [inversion H | reflexivity].
  - rewrite IH. destruct (decide (k ∈ ks)) as [Hin|Hnin].
    + destruct (decide (k ∈ k0 :: ks)) as [_|Hn]; [reflexivity|].
      exfalso. apply Hn. right. exact Hin.
    + destruct (decide (k = k0)) as [->|Hne].
      * rewrite lookup_delete_eq.
        destruct (decide (k0 ∈ k0 :: ks)) as [_|Hn]; [reflexivity|].
        exfalso. apply Hn. left.
      * rewrite lookup_delete_ne by congruence.
        destruct (decide (k ∈ k0 :: ks)) as [Hin|_]; [|reflexivity].
        apply elem_of_cons in Hin. destruct Hin; [contradiction | contradiction].
Qed.

Lemma elem_of_inactive_sessions now m k :
  k ∈ inactive_sessions now m ↔
  ∃ s, sessions m !! k = Some s ∧ (Session.last_activity s < now - inactivity_window)%Z.
Proof.
  unfold inactive_sessions. rewrite list_elem_of_fmap. split.
  - intros ([k' s] & -> & Hin). apply list_elem_of_filter in Hin.
    destruct Hin as [Hold Hin]. apply elem_of_map_to_list in Hin. eauto.
  - intros (s & Hs & Hold). exists (k, s). split; [reflexivity|].
    apply list_elem_of_filter. split; [exact Hold|].
    apply elem_of_map_to_list. exact Hs.
Qed.

(** X1.  A pass of the sweep deletes exactly the sessions whose last
    activity lies more than thirty minutes before the clock reading (a
    session that is exactly thirty minutes old stays), leaves every other
    session as it is, whatever its number of participants, and does not
    touch the reverse index. *)
Theorem sweep_removes_exactly_inactive now m k :
  sessions (_cleanup_inactive_sessions now m) !! k =
    match sessions m !! k with
    | Some s =>
        if decide (Session.last_activity s < now - inactivity_window)%Z
        then None else Some s
    | None => None
    end ∧
  client_sessions (_cleanup_inactive_sessions now m) = client_sessions m.
Proof.
  split; [|reflexivity]. simpl. rewrite sweep_lookup_full.
  destruct (decide (k ∈ inactive_sessions now m)) as [Hin|Hnin].
  - apply elem_of_inactive_sessions in Hin. destruct Hin as (s & -> & Hold).
    destruct (decide _); [reflexivity | contradiction].
  - destruct (sessions m !! k) as [s|] eqn:Hs; [|reflexivity].
    destruct (decide _) as [Hold|_]; [|reflexivity].
    exfalso. apply Hnin. apply elem_of_inactive_sessions. eauto.
Qed.

(** X2.  A second [leave_session] of the same client, right after the
    first, returns false and changes nothing, whatever the first one
    did. *)
Theorem leave_session_twice now1 now2 ws m :
  let m1 := (leave_session now1 ws m).2 in
  leave_session now2 ws m1 = (false, m1).
Proof.
  intros m1. subst m1.
  destruct (get_client_session ws m) as [s|] eqn:G.
  - destruct (Session.participants s !! ws) as [info|] eqn:N.
    + rewrite (leave_session_ok _ _ _ _ G (ex_intro _ info N)). simpl.
      apply leave_session_none. unfold get_client_session. simpl.
      rewrite lookup_delete_eq. reflexivity.
    + rewrite (leave_session_absent _ _ _ _ G N). simpl.
      apply (leave_session_absent _ _ _ _ G N).
  - rewrite (leave_session_none _ _ _ G). simpl. apply leave_session_none. exact G.
Qed.

(** X3.  [get_other_session_participants] lists, without repetition,
    exactly the participants of the caller's session other than the
    caller; it is empty when the caller has no session. *)
Theorem other_session_participants_spec ws m :
  (∀ ws', ws' ∈ get_other_session_participants ws m ↔
          ws' ≠ ws ∧
          ∃ s, get_client_session ws m = Some s ∧
               is_Some (Session.participants s !! ws')) ∧
  NoDup (get_other_session_participants ws m) ∧
  (get_client_session ws m = None → get_other_session_participants ws m = []).
Proof.
  unfold get_other_session_participants.
  destruct (get_client_session ws m) as [s|] eqn:G.
  - split; [|split; [|discriminate]].
    + intros ws'. unfold Session.get_other_participants.
      rewrite list_elem_of_filter, list_elem_of_fmap. split.
      * intros [Hne ([k info] & -> & Hin)]. apply elem_of_map_to_list in Hin.
        split; [exact Hne|]. exists s. split; [reflexivity|]. simpl. eauto.
      * intros [Hne (s' & Hs & [info Hin])]. injection Hs as <-.
        split; [exact Hne|]. exists (ws', info). split; [reflexivity|].
        apply elem_of_map_to_list. exact Hin.
    + unfold Session.get_other_participants. apply NoDup_filter.
      apply NoDup_fst_map_to_list.
  - split; [|split; [constructor | reflexivity]].
    intros ws'. split; [intros H; inversion H|].
    intros [_ (s & Hs & _)]. discriminate.
Qed.

(** X4.  [join_session] does not leave the session that the client is
    already in: after a successful join of a second session the client is
    still a participant of the first one while the reverse index names
    only the second; a [leave_session] then takes it out of the second
    session and leaves it in the first, with no reverse-index entry. *)
Theorem join_keeps_previous_membership now now' sid1 sid2 ws info m s1 :
  keyed m → sid1 ≠ sid2 →
  sessions m !! sid1 = Some s1 →
  is_Some (Session.participants s1 !! ws) →
  (join_session now sid2 ws info m).1 = true →
  let m1 := (join_session now sid2 ws info m).2 in
  let m2 := (leave_session now' ws m1).2 in
  client_sessions m1 !! ws = Some sid2 ∧
  sessions m1 !! sid1 = Some s1 ∧
  (sid2 ≠ "" →
     (leave_session now' ws m1).1 = true ∧
     client_sessions m2 !! ws = None ∧
     sessions m2 !! sid1 = Some s1).
Proof.
  intros K Hne H1 Hin Hjoin m1 m2. subst m2 m1.
  destruct (sessions m !! sid2) as [s2|] eqn:E.
  - destruct (Session.is_full s2) eqn:F.
    + rewrite (join_session_full _ _ _ _ _ _ E F) in Hjoin. discriminate.
    + rewrite (join_session_ok _ _ _ _ _ _ E F). simpl.
      split; [apply lookup_insert_eq|].
      split; [rewrite lookup_insert_ne by congruence; exact H1|].
      intros Hnonempty.
      assert (G : get_client_session ws
                    {| sessions := <[sid2 := Session.with_participant now ws info s2]> (sessions m);
                       client_sessions := <[ws := sid2]> (client_sessions m);
                       cleanup_task := cleanup_task m |}
                  = Some (Session.with_participant now ws info s2)).
      { apply get_client_session_Some. exists sid2. simpl.
        rewrite !lookup_insert_eq. auto. }
      assert (P : is_Some (Session.participants (Session.with_participant now ws info s2) !! ws)).
      { simpl. rewrite lookup_insert_eq. eauto. }
      rewrite (leave_session_ok _ _ _ _ G P). simpl.
      rewrite (K _ _ E).
      split; [reflexivity|]. split; [apply lookup_delete_eq|].
      destruct (Session.is_empty _).
      * rewrite lookup_delete_ne, !lookup_insert_ne by congruence. exact H1.
      * rewrite !lookup_insert_ne by congruence. exact H1.
  - rewrite (join_session_missing _ _ _ _ _ E) in Hjoin. discriminate.
Qed.

(** X5.  A client that joins the session it is already in takes no new
    slot: if the session is not full the join succeeds, the count of
    participants is unchanged and the stored info is replaced; if the
    session is full the join is refused although the client is one of the
    participants. *)
Theorem rejoin_same_session now sid ws info m s :
  sessions m !! sid = Some s →
  is_Some (Session.participants s !! ws) →
  (Session.is_full s = true → join_session now sid ws info m = (false, m)) ∧
  (Session.is_full s = false →
     (join_session now sid ws info m).1 = true ∧
     ∃ s', sessions (join_session now sid ws info m).2 !! sid = Some s' ∧
           Session.get_participant_count s' = Session.get_participant_count s ∧
           Session.participants s' !! ws = Some info).
Proof.
  intros E [old Hin]. split; intros F.
  - apply (join_session_full _ _ _ _ _ _ E F).
  - rewrite (join_session_ok _ _ _ _ _ _ E F). simpl.
    split; [reflexivity|]. eexists. split; [apply lookup_insert_eq|].
    unfold Session.get_participant_count. simpl.
    rewrite map_size_insert, Hin. split; [reflexivity | apply lookup_insert_eq].
Qed.

End session_manager_more.

Section session_queries.
Import SessionManager.
Implicit Types (m : SessionManager.t) (s : Session.t) (ws : WebSocket).

Lemma filter_all {A} (P : A → Prop) `{∀ x, Decision (P x)} (l : list A) :
  Forall P l → filter P l = l.
Proof.
  induction 1 as [|x l Hx Hl IH]; [reflexivity|].
  rewrite filter_cons_True by exact Hx. rewrite IH. reflexivity.
Qed.

Lemma length_others (ps : gmap WebSocket Session.UserInfo) ws :
  is_Some (ps !! ws) →
  length (filter (λ w, w ≠ ws) (map_to_list ps).*1) = size ps - 1.
Proof.
  intros [info Hin].
  pose proof (map_to_list_delete ps ws info Hin) as Hperm.
  rewrite <- Hperm. rewrite fmap_cons. simpl.
  rewrite filter_cons_False by (intros Hc; apply Hc; reflexivity).
  rewrite filter_all.
  - rewrite length_fmap, length_map_to_list, map_size_delete, Hin. lia.
  - apply Forall_forall. intros w Hw Heq. subst w.
    apply list_elem_of_fmap in Hw. destruct Hw as ([k v] & Hk & Hkv).
    simpl in Hk. subst k. apply elem_of_map_to_list in Hkv.
    rewrite lookup_delete_eq in Hkv. discriminate.
Qed.

(** X6.  [broadcast_to_session] creates one sending task for each of the
    other participants of the caller's session and returns their number:
    one less than the number of participants when the caller is one of
    them, and 0, with no task, when the caller has no session. *)
Theorem broadcast_to_session_count ws m :
  (broadcast_to_session ws m).1 = length (broadcast_to_session ws m).2 ∧
  (broadcast_to_session ws m).2 = get_other_session_participants ws m ∧
  (get_client_session ws m = None → broadcast_to_session ws m = (0, [])) ∧
  (∀ s, get_client_session ws m = Some s →
        is_Some (Session.participants s !! ws) →
        (broadcast_to_session ws m).1 = size (Session.participants s) - 1).
Proof.
  unfold broadcast_to_session.
  split; [|split; [|split]].
  - destruct (get_other_session_participants ws m); reflexivity.
  - destruct (get_other_session_participants ws m); reflexivity.
  - intros G. unfold get_other_session_participants. rewrite G. reflexivity.
  - intros s G Hin.
    assert (L : length (get_other_session_participants ws m)
                = size (Session.participants s) - 1).
    { unfold get_other_session_participants. rewrite G.
      apply length_others. exact Hin. }
    destruct (get_other_session_participants ws m); simpl in *; exact L.
Qed.


End session_queries.

Section queue_more.
Import MessageQueue.
Context {M P : Type}.
Implicit Types (q : MessageQueue.t M P).

Lemma apply_call_bounded (c : call) q :
  length (queue q) ≤ maxlen q →
  length (queue (apply_call c q)) ≤ maxlen (apply_call c q) ∧
  maxlen (apply_call c q) = maxlen q.
Proof.
  intros B. destruct c as [x|p| |]; simpl; split; auto; try lia.
  rewrite deque_append_most_recent by exact B. apply most_recent_length.
Qed.

Lemma apply_calls_bounded (cs : list call) : ∀ q,
  length (queue q) ≤ maxlen q →
  length (queue (apply_calls cs q)) ≤ maxlen (apply_calls cs q) ∧
  maxlen (apply_calls cs q) = maxlen q.
Proof.
  induction cs as [|c cs IH]; intros q B; simpl; [auto|].
  destruct (apply_call_bounded c q B) as [B' E].
  destruct (IH _ B') as [B'' E']. split; [exact B'' | congruence].
Qed.

(** X8.  Whatever calls of [add_message], [add_processor], [clear] and
    [stop] are made on a queue built with capacity [capacity], in any
    order, the queue never holds more than [capacity] messages and its
    bound does not change. *)
Theorem queue_never_exceeds_bound (capacity : nat) (cs : list call) :
  let q := apply_calls cs (new (M:=M) (P:=P) capacity) in
  length (queue q) ≤ capacity ∧ maxlen q = capacity.
Proof.
  intros q. subst q.
  destruct (apply_calls_bounded cs (new capacity)) as [B E]; [simpl; lia|].
  simpl in E. rewrite E in B. auto.
Qed.

End queue_more.

Section client_message_manager_facts.
Import ClientMessageManager.
Context {M P : Type}.
Implicit Types (mm : ClientMessageManager.t M P).

(** X9.  [get_queue] creates the queue of a client on first use, with
    capacity 100, no message and no processor, and from then on answers
    that same queue without changing the manager; the queues of other
    clients are never affected. *)
Theorem get_queue_creates_once (client : string) mm :
  let q := (get_queue client mm).1 in
  let mm1 := (get_queue client mm).2 in
  get_queue client mm1 = (q, mm1) ∧
  queues mm1 !! client = Some q ∧
  (∀ other, other ≠ client → queues mm1 !! other = queues mm !! other) ∧
  (queues mm !! client = None → q = MessageQueue.new 100) ∧
  (∀ q0, queues mm !! client = Some q0 → q = q0 ∧ mm1 = mm).
Proof.
  unfold get_queue. destruct (queues mm !! client) as [q0|] eqn:E; simpl.
  - rewrite E. split; [|split; [|split; [|split]]]; auto; try discriminate.
    intros q1 H. injection H as <-. auto.
  - rewrite lookup_insert_eq. split; [|split; [|split; [|split]]]; auto; try discriminate.
    intros other Hne. apply lookup_insert_ne. congruence.
Qed.

(** X10.  [remove_client] drops the queue of the client, does nothing for
    an unknown client and never touches another client's queue.  The
    processors go with the queue: a message added for the same client
    afterwards lands in a new queue that has no processor. *)
Theorem processors_lost_on_removal (client : string) (message : M) mm :
  queues (remove_client client mm) !! client = None ∧
  (∀ other, other ≠ client →
     queues (remove_client client mm) !! other = queues mm !! other) ∧
  (queues mm !! client = None → remove_client client mm = mm) ∧
  queues (add_message client message (remove_client client mm)) !! client =
    Some (MessageQueue.mk [message] 100 false [] true).
Proof.
  assert (R : queues (remove_client client mm) !! client = None).
  { unfold remove_client. destruct (queues mm !! client) eqn:E; simpl;
      [apply lookup_delete_eq | exact E]. }
  split; [exact R|]. split; [|split].
  - intros other Hne. unfold remove_client.
    destruct (queues mm !! client); simpl; [|reflexivity].
    apply lookup_delete_ne. congruence.
  - intros E. unfold remove_client. rewrite E. reflexivity.
  - unfold add_message, get_queue. rewrite R. simpl.
    rewrite lookup_insert_eq. reflexivity.
Qed.

End client_message_manager_facts.

Section audio_buffer_more.
Import AudioBuffer.

Lemma run_total_samples (ops : list op) : ∀ b,
  total_samples (run ops b).1 = (total_samples b + samples ops)%Z.
Proof.
  induction ops as [|o ops IH]; intros b; simpl; [lia|].
  destruct o as [c|].
  - rewrite IH. simpl. lia.
  - unfold get_new_audio. destruct (buffer b) eqn:E.
    + destruct (run ops b) as [b2 rs] eqn:Hr. simpl.
      specialize (IH b). rewrite Hr in IH. simpl in IH. exact IH.
    + match goal with |- context [run ops ?b1] =>
        destruct (run ops b1) as [b2 rs] eqn:Hr; specialize (IH b1) end.
      rewrite Hr in IH. simpl in *. exact IH.
Qed.

Lemma samples_le_added (ops : list op) :
  (2 * samples ops ≤ Z.of_nat (length (added ops)))%Z.
Proof.
  induction ops as [|o ops IH]; simpl; [unfold added; simpl; lia|].
  destruct o as [c|].
  - change (added (AddChunk c :: ops)) with (c ++ added ops).
    rewrite length_app, Nat2Z.inj_add.
    pose proof (Z.mul_div_le (Z.of_nat (length c)) 2). lia.
  - exact IH.
Qed.

(** X11.  From a new buffer, [total_samples] is the sum over the chunks
    added of half the chunk's length rounded down, so twice the counter
    never exceeds the number of bytes added; [get_new_audio] does not
    reset the counter, [clear] does. *)
Theorem total_samples_counts_half_chunks (ops : list op) :
  let b := (run ops init).1 in
  total_samples b = samples ops ∧
  (2 * total_samples b ≤ Z.of_nat (length (added ops)))%Z ∧
  total_samples (get_new_audio b).2 = total_samples b ∧
  total_samples (clear b) = 0%Z.
Proof.
  intros b.
  assert (T : total_samples b = samples ops).
  { subst b. rewrite run_total_samples. simpl. lia. }
  split; [exact T|]. split; [rewrite T; apply samples_le_added|].
  split; [|reflexivity].
  unfold get_new_audio. destruct (buffer b); reflexivity.
Qed.

End audio_buffer_more.

Section streaming_transcriber_more.
Import StreamingTranscriber.
Variable whisper : nat → string → bytes → option string.
Variable callback : option (string → Q → bool).
Implicit Types (x : StreamingTranscriber.t) (i : nat).

Lemma recognise_and_publish_audio_buffer data x :
  audio_buffer (recognise_and_publish whisper callback data x) = audio_buffer x.
Proof.
  unfold recognise_and_publish, _transcribe_audio_chunk.
  destruct (whisper _ _ _) as [text|]; simpl;
    destruct callback as [f|]; simpl; auto;
    match goal with |- context [str_bool ?a] => destruct (str_bool a) end; simpl; auto;
    match goal with |- context [f ?a ?b] => destruct (f a b) end; simpl; auto.
Qed.

Lemma take_audio_buffer x :
  AudioBuffer.buffer (audio_buffer (take_audio x).2) = [].
Proof.
  unfold take_audio.
  pose proof (get_new_audio_buffer (audio_buffer x)) as B.
  destruct (AudioBuffer.get_new_audio (audio_buffer x)) as [[data|] b]; simpl in *.
  - destruct (Z.of_nat (length data) <? 8000)%Z; exact B.
  - exact B.
Qed.

(** X12.  The step with which a thread of [_process_audio] wakes from its
    sleep takes everything out of the audio buffer.  When the audio taken
    amounts to less than 8000 bytes the thread goes back to the test of
    the loop and nothing else of the controller changes: those bytes are
    kept nowhere and are never recognised.  When it amounts to 8000 bytes
    or more the thread goes on to the recognition with all of it. *)
Theorem short_audio_is_dropped x i :
  threads x !! i = Some Sleeping →
  let taken := AudioBuffer.join (AudioBuffer.buffer (audio_buffer x)) in
  let emptied := set_audio_buffer (AudioBuffer.get_new_audio (audio_buffer x)).2 x in
  let y := thread_step whisper callback i x in
  AudioBuffer.buffer (audio_buffer y) = [] ∧
  ((Z.of_nat (length taken) < 8000)%Z → y = set_pc i AtTest emptied) ∧
  ((8000 ≤ Z.of_nat (length taken))%Z → y = set_pc i (Recognising taken) emptied).
Proof.
  intros Hpc taken emptied y. subst y. unfold thread_step. rewrite Hpc.
  split; [|split].
  - pose proof (take_audio_buffer x) as B.
    destruct (take_audio x) as [[data|] x1]; simpl in *; exact B.
  - intros Hshort. subst emptied taken. unfold take_audio, AudioBuffer.get_new_audio in *.
    destruct (AudioBuffer.buffer (audio_buffer x)) as [|c cs] eqn:E; [reflexivity|].
    destruct (Z.ltb_spec (Z.of_nat (length (AudioBuffer.join (c :: cs)))) 8000) as [_|Hge];
      [reflexivity | lia].
  - intros Hlong. subst emptied taken. unfold take_audio, AudioBuffer.get_new_audio in *.
    destruct (AudioBuffer.buffer (audio_buffer x)) as [|c cs] eqn:E;
      [simpl in Hlong; lia|].
    destruct (Z.ltb_spec (Z.of_nat (length (AudioBuffer.join (c :: cs)))) 8000) as [Hlt|_];
      [lia | reflexivity].
Qed.

(** X13.  When the recogniser answers, the text with the white space at
    both ends removed is put on the result queue with the confidence 1.0,
    even when nothing is left of it; the callback, if there is one, is
    called with that result only when the text is not empty, and an
    exception that it raises is logged without ending the pass. *)
Theorem recognition_success x data text :
  whisper (length (recognizer_calls x)) (source_language x) data = Some text →
  let x' := recognise_and_publish whisper callback data x in
  let result := (strip text, 1%Q) in
  transcription_queue x' = transcription_queue x ++ [result] ∧
  callback_calls x' =
    match callback with
    | Some _ => if decide (strip text = "") then callback_calls x
                else callback_calls x ++ [result]
    | None => callback_calls x
    end ∧
  log x' =
    log x ++
    match callback with
    | Some f => if decide (strip text = "") then []
                else if f (strip text) 1%Q then [] else [ErrorInTranscriptionThread]
    | None => []
    end.
Proof.
  intros Hok. unfold recognise_and_publish, _transcribe_audio_chunk.
  rewrite Hok. simpl. destruct callback as [f|]; simpl.
  - unfold str_bool. destruct (decide (strip text = "")); simpl.
    + rewrite app_nil_r. auto.
    + destruct (f (strip text) 1%Q); simpl; rewrite ?app_nil_r; auto.
  - rewrite app_nil_r. auto.
Qed.

(** X14.  [start] is idempotent: a second [start] right after a first one
    finds the thread of the controller alive and only logs a warning; it
    creates no second thread. *)
Theorem start_twice x :
  start (start x) = add_log ThreadAlreadyRunning (start x) ∧
  threads (start (start x)) = threads (start x) ∧
  ∃ i, processing_thread (start x) = Some i ∧ is_alive i (start x) = true.
Proof.
  assert (C : ∃ i, processing_thread (start x) = Some i ∧ is_alive i (start x) = true).
  { unfold start.
    destruct (processing_thread x) as [i|] eqn:Hp.
    - destruct (is_alive i x) eqn:Ha.
      + exists i. simpl. split; [exact Hp|]. unfold is_alive in *. simpl. exact Ha.
      + exists (length (threads x)). simpl. split; [reflexivity|].
        unfold is_alive. simpl. rewrite lookup_app_r by lia.
        rewrite Nat.sub_diag. reflexivity.
    - exists (length (threads x)). simpl. split; [reflexivity|].
      unfold is_alive. simpl. rewrite lookup_app_r by lia.
      rewrite Nat.sub_diag. reflexivity. }
  assert (B : start (start x) = add_log ThreadAlreadyRunning (start x)).
  { destruct C as (i & Hp & Ha). unfold start at 1. rewrite Hp, Ha. reflexivity. }
  split; [exact B|]. split; [rewrite B; reflexivity | exact C].
Qed.

Lemma stop_fields budget x :
  running (stop whisper callback budget x) = false ∧
  processing_thread (stop whisper callback budget x) = None.
Proof.
  unfold stop. simpl. destruct (processing_thread x) eqn:E; simpl; auto.
  split; [apply join_running | reflexivity].
Qed.

(** X15.  [stop] is idempotent: a second [stop] changes nothing, whatever
    the waits allowed. *)
Theorem stop_twice budget1 budget2 x :
  stop whisper callback budget2 (stop whisper callback budget1 x) =
  stop whisper callback budget1 x.
Proof.
  destruct (stop_fields budget1 x) as [R Pt].
  remember (stop whisper callback budget1 x) as y eqn:Hy.
  assert (Hb : AudioBuffer.clear (audio_buffer y) = audio_buffer y).
  { subst y. unfold stop. simpl. destruct (processing_thread x); reflexivity. }
  clear Hy. unfold stop. simpl. rewrite Pt.
  destruct y as [b pt r q l ts rc cc lg]. simpl in *. subst.
  unfold set_audio_buffer, set_running. simpl. rewrite Hb. reflexivity.
Qed.

Lemma alive_while_running i n : ∀ y,
  is_alive i y = true → running y = true →
  is_alive i (Nat.iter n (thread_step whisper callback i) y) = true.
Proof.
  induction n as [|n IH]; intros y Ai Ry; [exact Ai|].
  rewrite Nat.iter_succ_r. apply IH.
  - unfold is_alive in *. destruct (threads y !! i) as [pc|] eqn:E; [|discriminate].
    rewrite (thread_step_pc whisper callback _ _ _ E).
    destruct pc; try discriminate; simpl.
    + rewrite Ry. reflexivity.
    + destruct (take_audio y).1; reflexivity.
    + reflexivity.
  - rewrite thread_step_running. exact Ry.
Qed.

(** X16.  [start] after [stop] neither reuses nor waits for the old
    thread: a loop thread that outlived the bounded wait of [stop] is
    alive next to the new one, and since the flag is true again it goes
    on looping. *)
Theorem restart_keeps_surviving_loop budget x i :
  is_alive i (stop whisper callback budget x) = true →
  let y := start (stop whisper callback budget x) in
  let j := length (threads (stop whisper callback budget x)) in
  running y = true ∧
  processing_thread y = Some j ∧
  i ≠ j ∧
  is_alive i y = true ∧
  is_alive j y = true ∧
  ∀ n, is_alive i (Nat.iter n (thread_step whisper callback i) y) = true.
Proof.
  intros Ha y j.
  destruct (stop_fields budget x) as [R Pt].
  remember (stop whisper callback budget x) as z eqn:Hz. clear Hz.
  assert (Hi : i < length (threads z)).
  { unfold is_alive in Ha. destruct (threads z !! i) eqn:E; [|discriminate].
    apply lookup_lt_Some in E. exact E. }
  assert (Hy : y = set_threads (threads z ++ [AtTest])
                     (set_processing_thread (Some (length (threads z)))
                        (set_running true z))).
  { subst y. unfold start. rewrite Pt. reflexivity. }
  assert (Ai : is_alive i y = true).
  { rewrite Hy. unfold is_alive in *. simpl. rewrite lookup_app_l by exact Hi. exact Ha. }
  assert (Ry : running y = true) by (rewrite Hy; reflexivity).
  split; [exact Ry|]. split; [rewrite Hy; reflexivity|].
  split; [subst j; lia|]. split; [exact Ai|]. split.
  - rewrite Hy. unfold is_alive. simpl. subst j.
    rewrite lookup_app_r by lia. rewrite Nat.sub_diag. reflexivity.
  - intros n. apply alive_while_running; assumption.
Qed.

End streaming_transcriber_more.

Lemma restart_keeps_surviving_loop_witness :
  let y := StreamingTranscriber.start
             (StreamingTranscriber.stop Examples.failing_whisper None 0
                Examples.mid_recognition) in
  StreamingTranscriber.is_alive 0 y = true ∧ StreamingTranscriber.is_alive 1 y = true.
Proof.
  destruct (restart_keeps_surviving_loop Examples.failing_whisper None 0
              Examples.mid_recognition 0) as (_ & _ & _ & A & B & _).
  - vm_compute. reflexivity.
  - split; [exact A | exact B].
Defined.

Lemma short_audio_is_dropped_witness :
  let x := MoreExamples.asleep_with_short_audio in
  let y := StreamingTranscriber.thread_step Examples.failing_whisper None 0 x in
  StreamingTranscriber.threads x !! 0 = Some StreamingTranscriber.Sleeping ∧
  length (AudioBuffer.buffer (StreamingTranscriber.audio_buffer x)) = 3 ∧
  AudioBuffer.buffer (StreamingTranscriber.audio_buffer y) = [] ∧
  StreamingTranscriber.threads y = [StreamingTranscriber.AtTest] ∧
  StreamingTranscriber.recognizer_calls y = [].
Proof.
  assert (Hpc : StreamingTranscriber.threads MoreExamples.asleep_with_short_audio !! 0 =
                Some StreamingTranscriber.Sleeping) by (vm_compute; reflexivity).
  destruct (short_audio_is_dropped Examples.failing_whisper None
              MoreExamples.asleep_with_short_audio 0 Hpc) as (E & S & _).
  split; [exact Hpc|]. split; [vm_compute; reflexivity|]. split; [exact E|].
  rewrite S by (vm_compute; reflexivity). split; reflexivity.
Defined.

Lemma recognition_success_witness :
  StreamingTranscriber.transcription_queue
    (StreamingTranscriber.recognise_and_publish Examples.hello_whisper None
       Examples.chunk2000 StreamingTranscriber.init) = [("hello", 1%Q)].
Proof.
  apply (recognition_success Examples.hello_whisper None StreamingTranscriber.init
           Examples.chunk2000 " hello " eq_refl).
Defined.

Section endpoint_invariants.
Import Main EndpointState.
Variable whisper : nat → string → bytes → option string.
Variable join_budget : nat.
Implicit Types (srv : Main.t) (ws : WebSocket) (x : StreamingTranscriber.t).

Lemma never_started_add_audio_chunk chunk x :
  never_started x → never_started (StreamingTranscriber.add_audio_chunk chunk x).
Proof. intros H. exact H. Qed.

Lemma never_started_set_language l x :
  never_started x → never_started (StreamingTranscriber.set_language l x).
Proof. intros H. exact H. Qed.

Lemma never_started_init : never_started StreamingTranscriber.init.
Proof. repeat split. Qed.

(** A step that only adds effects, or changes the manager of sessions or
    of queues, keeps the invariant. *)
Lemma good_same_registries srv srv' :
  client_configs srv' = client_configs srv →
  active_transcribers srv' = active_transcribers srv →
  good srv → good srv'.
Proof.
  intros Hc Ht [I L]. split.
  - intros ws x Hx. rewrite Ht in Hx. eauto.
  - intros ws c Hw. rewrite Hc in Hw. rewrite Ht. eauto.
Qed.

(** The config of a connection is replaced by one with the same source
    language. *)
Lemma good_set_config srv ws c c' :
  client_configs srv !! ws = Some c →
  source_language c' = source_language c →
  good srv → good (set_config ws c' srv).
Proof.
  intros Hc Hs [I L]. split; [exact I|].
  intros w d Hd. simpl in *. apply lookup_insert_Some in Hd.
  destruct Hd as [[<- <-]|[_ Hd]]; [|eauto].
  destruct (L _ _ Hc) as (x & Hx & E). exists x. split; [exact Hx | congruence].
Qed.

(** The controller of a connection gets one more chunk. *)
Lemma good_add_chunk srv ws chunk :
  good srv →
  good (set_active_transcribers
          (alter (StreamingTranscriber.add_audio_chunk chunk) ws (active_transcribers srv))
          srv).
Proof.
  intros [I L]. split.
  - intros w x Hx. simpl in Hx. rewrite lookup_alter in Hx.
    destruct (decide (ws = w)) as [<-|Hne]; [|eauto].
    destruct (active_transcribers srv !! ws) as [x0|] eqn:E; [|discriminate].
    injection Hx as <-. apply never_started_add_audio_chunk. eauto.
  - intros w c Hc. simpl in *. destruct (L _ _ Hc) as (x & Hx & E).
    rewrite lookup_alter. destruct (decide (ws = w)) as [<-|Hne]; [|eauto].
    rewrite Hx. simpl. eexists. split; [reflexivity | exact E].
Qed.

Lemma foldl_send_json_registries (others : list WebSocket) f : ∀ srv,
  let srv' := foldl (λ acc other, send_json other f acc) srv others in
  client_configs srv' = client_configs srv ∧
  active_transcribers srv' = active_transcribers srv.
Proof.
  induction others as [|o others IH]; intros srv; simpl; [auto|].
  destruct (IH (send_json o f srv)) as [A B]. simpl in *. split; congruence.
Qed.

Lemma run_processor_good client p chunk srv :
  good srv → good (run_processor client p chunk srv).
Proof.
  intros G. destruct p as [ws]. simpl.
  destruct (client_configs srv !! ws) as [c|]; [|exact G].
  destruct (decide (role c = "speaker")); [apply good_add_chunk|]; exact G.
Qed.

Lemma _process_queue_pass_good client srv :
  good srv → good (_process_queue_pass client srv).
Proof.
  intros G. unfold _process_queue_pass.
  destruct (ClientMessageManager.queues (message_manager srv) !! client) as [q|]; [|exact G].
  destruct (MessageQueue.queue q) as [|message rest]; [exact G|].
  match goal with |- good (foldl _ ?s ?ps) =>
    assert (G1 : good s) by exact G; generalize dependent s; generalize ps end.
  intros ps. induction ps as [|p ps IH]; intros s G1; simpl; [exact G1|].
  apply IH. apply run_processor_good. exact G1.
Qed.

Lemma cleanup_registries ws srv :
  client_configs (cleanup whisper join_budget ws srv) = delete ws (client_configs srv) ∧
  active_transcribers (cleanup whisper join_budget ws srv) =
    delete ws (active_transcribers srv).
Proof.
  unfold cleanup. simpl.
  assert (C : ∀ (cs : gmap WebSocket ClientConfig),
            cs !! ws = None → cs = delete ws cs).
  { intros cs H. symmetry. apply delete_id. exact H. }
  assert (T : ∀ (ts : gmap WebSocket StreamingTranscriber.t),
            ts !! ws = None → ts = delete ws ts).
  { intros ts H. symmetry. apply delete_id. exact H. }
  destruct (active_transcribers srv !! ws) eqn:Et; simpl;
    destruct (decide (ws ∈ active_connections srv)); simpl;
    destruct (client_configs srv !! ws) eqn:Ec; simpl;
    repeat match goal with
           | |- context [if ?b then _ else _] => destruct b; simpl
           end; auto.
Qed.

Lemma cleanup_good ws srv : good srv → good (cleanup whisper join_budget ws srv).
Proof.
  intros [I L]. destruct (cleanup_registries ws srv) as [Hc Ht].
  split.
  - intros w x Hx. rewrite Ht in Hx. apply lookup_delete_Some in Hx.
    destruct Hx as [_ Hx]. eauto.
  - intros w c Hw. rewrite Hc in Hw. apply lookup_delete_Some in Hw.
    destruct Hw as [Hne Hw]. destruct (L _ _ Hw) as (x & Hx & E).
    exists x. split; [|exact E]. rewrite Ht. rewrite lookup_delete_ne by exact Hne.
    exact Hx.
Qed.

Lemma accept_good ws srv : good srv → good (accept ws srv).
Proof.
  intros [I L]. unfold accept. split.
  - intros w x Hx. simpl in Hx. apply lookup_insert_Some in Hx.
    destruct Hx as [[_ <-]|[_ Hx]]; [apply never_started_init | eauto].
  - intros w c Hw. simpl in *. apply lookup_insert_Some in Hw.
    destruct Hw as [[<- <-]|[Hne Hw]].
    + exists StreamingTranscriber.init. rewrite lookup_insert_eq. auto.
    + destruct (L _ _ Hw) as (x & Hx & E). exists x.
      rewrite lookup_insert_ne by exact Hne. auto.
Qed.

Lemma good_send_json to f srv : good srv → good (send_json to f srv).
Proof. apply good_same_registries; reflexivity. Qed.

Lemma good_set_session_manager sm srv : good srv → good (set_session_manager sm srv).
Proof. apply good_same_registries; reflexivity. Qed.

Lemma good_foldl_send_json (others : list WebSocket) f srv :
  good srv → good (foldl (λ acc other, send_json other f acc) srv others).
Proof.
  destruct (foldl_send_json_registries others f srv) as [A B].
  apply good_same_registries; assumption.
Qed.

(** A [config] message that names a source language. *)
Lemma good_set_language srv ws c c' v :
  client_configs srv !! ws = Some c →
  source_language c' = v →
  good srv →
  good (set_config ws c'
          (set_active_transcribers
             (alter (StreamingTranscriber.set_language v) ws (active_transcribers srv))
             srv)).
Proof.
  intros Hc Hs [I L]. destruct (L _ _ Hc) as (x & Hx & E). split.
  - intros w y Hy. simpl in Hy. rewrite lookup_alter in Hy.
    destruct (decide (ws = w)) as [<-|Hne]; [|eauto].
    rewrite Hx in Hy. injection Hy as <-.
    apply never_started_set_language. eauto.
  - intros w d Hd. simpl in *. apply lookup_insert_Some in Hd.
    destruct Hd as [[<- <-]|[Hne Hd]].
    + rewrite lookup_alter_eq, Hx. simpl. eexists. split; [reflexivity|].
      symmetry. exact Hs.
    + rewrite lookup_alter_ne by exact Hne. eauto.
Qed.

Lemma handle_message_good now uuid ws c m srv :
  client_configs srv !! ws = Some c →
  good srv → good (handle_message now uuid ws c m srv).
Proof.
  intros Hc G. unfold handle_message.
  destruct m as [sl tl r u | name maxp | sid | | | ].
  - (* config *)
    cbv zeta. apply good_send_json. destruct sl as [v|].
    + apply (good_set_language srv ws c); [exact Hc | | exact G].
      destruct tl, r, u; reflexivity.
    + apply (good_set_config srv ws c); [exact Hc | | exact G].
      destruct tl, r, u; reflexivity.
  - (* session_create *)
    destruct (SessionManager.create_session _ _ _ _ _) as [session sm1].
    destruct (SessionManager.join_session _ _ _ _ _) as [joined sm2].
    cbv zeta. destruct joined; apply good_send_json.
    + apply (good_set_config _ ws c); [exact Hc | reflexivity |].
      apply good_set_session_manager. exact G.
    + apply good_set_session_manager. exact G.
  - (* session_join *)
    destruct (truthy sid); [|apply good_send_json; exact G].
    cbv zeta.
    destruct (SessionManager.join_session _ _ _ _ _) as [joined sm1].
    destruct joined.
    + apply good_foldl_send_json. apply good_send_json.
      apply (good_set_config _ ws c); [exact Hc | reflexivity |].
      apply good_set_session_manager. exact G.
    + apply good_send_json. apply good_set_session_manager. exact G.
  - (* session_leave *)
    destruct (truthy (session_id c)); [|apply good_send_json; exact G].
    destruct (SessionManager.leave_session _ _ _) as [has_left sm1].
    cbv zeta. destruct has_left; apply good_send_json.
    + apply (good_set_config _ ws c); [exact Hc | reflexivity |].
      apply good_set_session_manager. exact G.
    + apply good_set_session_manager. exact G.
  - apply good_send_json. exact G.
  - exact G.
Qed.

Lemma handle_bytes_good ws c audio_data srv :
  good srv → good (handle_bytes ws c audio_data srv).
Proof.
  intros G. unfold handle_bytes. destruct audio_data as [|b bs]; [exact G|].
  destruct (decide (client_id c = "")).
  - destruct (decide (role c = "speaker")); [apply good_add_chunk|]; exact G.
  - destruct (decide (role c = "speaker"));
      apply (good_same_registries srv); try reflexivity; exact G.
Qed.

Lemma step_good e srv : good srv → good (step whisper join_budget e srv).
Proof.
  intros G. destruct e as [ws | ws | now uuid ws d | client]; simpl.
  - apply accept_good. exact G.
  - apply (good_same_registries srv); [reflexivity | reflexivity | exact G].
  - unfold receive. destruct d as [m | | audio_data | ].
    + destruct (client_configs srv !! ws) as [c|] eqn:Hc;
        [apply handle_message_good | apply cleanup_good]; assumption.
    + exact G.
    + destruct (client_configs srv !! ws) as [c|] eqn:Hc;
        [apply handle_bytes_good | apply cleanup_good]; assumption.
    + apply cleanup_good. exact G.
  - apply _process_queue_pass_good. exact G.
Qed.

Lemma run_good (events : list event) : ∀ srv,
  good srv → good (run whisper join_budget events srv).
Proof.
  induction events as [|e events IH]; intros srv G; simpl; [exact G|].
  apply IH. apply step_good. exact G.
Qed.

Lemma init_good : good init.
Proof.
  split.
  - intros ws x H. simpl in H. rewrite lookup_empty in H. discriminate.
  - intros ws c H. simpl in H. rewrite lookup_empty in H. discriminate.
Qed.

(** X17.  The endpoint never starts a controller: whatever connections
    are accepted, whatever frames arrive and however the queues are
    drained, every registered controller has its running flag false, no
    thread, an empty result queue and no call of the recogniser, so its
    result generator returns at once, before yielding anything. *)
Theorem endpoint_never_starts_recognition (events : list event) (ws : WebSocket) x :
  active_transcribers (run whisper join_budget events init) !! ws = Some x →
  never_started x ∧
  StreamingTranscriber.get_transcriptions StreamingTranscriber.Suspended x =
    (StreamingTranscriber.StopIteration, StreamingTranscriber.Returned, x) ∧
  StreamingTranscriber.no_loop_running x.
Proof.
  intros Hx. destruct (run_good events init init_good) as [I _].
  pose proof (I _ _ Hx) as N. split; [exact N|].
  destruct N as (R & _ & T & _). split.
  - unfold StreamingTranscriber.get_transcriptions. rewrite R. reflexivity.
  - intros i. unfold StreamingTranscriber.is_alive. rewrite T. reflexivity.
Qed.

(** X18.  At every moment each connection that has a config has a
    controller, and the language of the controller is the source language
    of the config: a [config] message changes both or neither. *)
Theorem config_and_transcriber_language_agree (events : list event) (ws : WebSocket) c :
  client_configs (run whisper join_budget events init) !! ws = Some c →
  ∃ x, active_transcribers (run whisper join_budget events init) !! ws = Some x ∧
       StreamingTranscriber.source_language x = source_language c.
Proof.
  intros Hc. destruct (run_good events init init_good) as [_ L]. eauto.
Qed.

End endpoint_invariants.

Section endpoint_more.
Import Main EndpointState.
Variable whisper : nat → string → bytes → option string.
Variable join_budget : nat.
Implicit Types (srv : Main.t) (ws : WebSocket).

Lemma pretty_N_go_nonempty (n : N) : ∀ s, s ≠ "" → pretty_N_go n s ≠ "".
Proof.
  induction (N.lt_wf_0 n) as [n _ IH]; intros s Hs.
  destruct (decide (n = 0)%N) as [->|Hn].
  - rewrite pretty_N_go_0. exact Hs.
  - rewrite pretty_N_go_step by lia. apply IH; [|discriminate].
    apply N.div_lt; lia.
Qed.

Lemma client_id_of_nonempty ws : client_id_of ws ≠ "".
Proof.
  unfold client_id_of, pretty, pretty_nat, pretty, pretty_N.
  destruct (decide (N.of_nat ws = 0)%N) as [_|Hn]; [discriminate|].
  rewrite pretty_N_go_step by lia. apply pretty_N_go_nonempty. discriminate.
Qed.

Lemma list_remove_snoc ws (l : list WebSocket) :
  ws ∉ l → list_remove ws (l ++ [ws]) = l.
Proof.
  induction l as [|y l IH]; intros Hn; simpl.
  - destruct (decide (ws = ws)); [reflexivity | contradiction].
  - apply not_elem_of_cons in Hn. destruct Hn as [Hne Hn].
    destruct (decide (y = ws)); [congruence|]. rewrite IH by exact Hn. reflexivity.
Qed.

(** X19.  Accepting a connection and then running its [finally] block
    gives back the registries of main.py as they were: the list of
    connections, the configs, the controllers and the message queues of a
    server that did not know the connection are unchanged.  The session
    manager keeps its sessions and its reverse index, and it holds a
    cleanup task from then on: the task that the endpoint starts is not
    cancelled by the [finally] block, and it is the task held before if
    there was one.  When the creation of the controller raises, the
    connection stays in the list of connections and nothing else has
    changed; the [finally] block, were it run, would take the
    connection out of the list. *)
Theorem accept_then_cleanup_restores ws srv :
  unknown ws srv →
  let srv' := cleanup whisper join_budget ws (accept ws srv) in
  let failed := accept_raises ws srv in
  (active_connections srv' = active_connections srv ∧
   client_configs srv' = client_configs srv ∧
   active_transcribers srv' = active_transcribers srv ∧
   message_manager srv' = message_manager srv) ∧
  (SessionManager.sessions (session_manager srv') =
     SessionManager.sessions (session_manager srv) ∧
   SessionManager.client_sessions (session_manager srv') =
     SessionManager.client_sessions (session_manager srv) ∧
   SessionManager.cleanup_task (session_manager srv') = true ∧
   session_manager srv' = SessionManager.start_cleanup_task (session_manager srv) ∧
   (SessionManager.cleanup_task (session_manager srv) = true →
    session_manager srv' = session_manager srv)) ∧
  (active_connections failed = active_connections srv ++ [ws] ∧
   ws ∈ active_connections failed ∧
   client_configs failed = client_configs srv ∧
   active_transcribers failed = active_transcribers srv ∧
   message_manager failed = message_manager srv ∧
   session_manager failed = session_manager srv ∧
   effects failed = effects srv ∧
   active_connections (cleanup whisper join_budget ws failed) = active_connections srv).
Proof.
  intros (Hconn & Hcfg & Htr & Hq) srv' failed. subst srv' failed.
  pose proof (client_id_of_nonempty ws) as Hid.
  assert (Hin : ws ∈ active_connections srv ++ [ws])
    by (apply elem_of_app; right; left).
  split; [|split].
  - unfold cleanup, accept. simpl.
    rewrite !lookup_insert_eq. simpl.
    destruct (decide (ws ∈ active_connections srv ++ [ws])) as [_|Hn]; [|contradiction].
    simpl. rewrite !lookup_insert_eq. simpl.
    destruct (decide (client_id_of ws = "")) as [He|_]; [contradiction|]. simpl.
    split; [apply list_remove_snoc; exact Hconn|].
    split; [rewrite delete_insert_eq; apply delete_id; exact Hcfg|].
    split; [rewrite delete_insert_eq; apply delete_id; exact Htr|].
    unfold ClientMessageManager.remove_client, ClientMessageManager.add_processor,
      ClientMessageManager.get_queue.
    rewrite Hq. simpl. rewrite lookup_insert_eq. simpl. rewrite lookup_insert_eq.
    rewrite !delete_insert_eq. rewrite delete_id by exact Hq.
    destruct (message_manager srv). reflexivity.
  - rewrite cleanup_session_manager. unfold accept. simpl.
    unfold SessionManager.start_cleanup_task.
    destruct (SessionManager.cleanup_task (session_manager srv)) eqn:T; simpl;
      repeat split; try reflexivity; try exact T; discriminate.
  - unfold accept_raises. simpl.
    split; [reflexivity|]. split; [exact Hin|].
    do 5 (split; [reflexivity|]).
    unfold cleanup. simpl. rewrite Htr, Hcfg. simpl.
    destruct (decide (ws ∈ active_connections srv ++ [ws])) as [_|Hn]; [|contradiction].
    simpl. rewrite Hcfg. simpl. apply list_remove_snoc. exact Hconn.
Qed.


(** X21.  A binary frame that is not empty is put on the queue of the
    client whatever the role is, and the endpoint does not hand it to the
    controller itself; a client that is not a speaker is sent a
    [role_info] frame with the size of its queue after the addition, a
    speaker is sent nothing.  An empty frame is ignored. *)
Theorem audio_frame_is_queued ws c (audio_data : bytes) q srv :
  audio_data ≠ [] →
  client_id c ≠ "" →
  ClientMessageManager.queues (message_manager srv) !! client_id c = Some q →
  let srv' := handle_bytes ws c audio_data srv in
  let q' := MessageQueue.add_message audio_data q in
  handle_bytes ws c [] srv = srv ∧
  ClientMessageManager.queues (message_manager srv') !! client_id c = Some q' ∧
  active_transcribers srv' = active_transcribers srv ∧
  effects srv' =
    effects srv ++
    (if decide (role c = "speaker") then []
     else [Sent ws (role_info (role c) (length (MessageQueue.queue q')))]).
Proof.
  intros Hdata Hid Hq srv' q'. subst srv'. split; [reflexivity|].
  unfold handle_bytes. destruct audio_data as [|b bs]; [contradiction|].
  destruct (decide (client_id c = "")) as [He|_]; [contradiction|].
  assert (A : ClientMessageManager.queues
                (ClientMessageManager.add_message (client_id c) (b :: bs) (message_manager srv))
              !! client_id c = Some q').
  { unfold ClientMessageManager.add_message, ClientMessageManager.get_queue.
    rewrite Hq. simpl. apply lookup_insert_eq. }
  destruct (decide (role c = "speaker")); simpl.
  - split; [exact A|]. split; [reflexivity|]. rewrite app_nil_r. reflexivity.
  - split; [exact A|]. split; [reflexivity|].
    unfold ClientMessageManager.get_queue. rewrite A. reflexivity.
Qed.

End endpoint_more.

Section translation_facts.
Import Translation.
Variable lower : string → string.
Variable translate_client : option client.

Lemma LANGUAGE_CODES_codes_are_not_names name code :
  LANGUAGE_CODES !! name = Some code → LANGUAGE_CODES !! code = None.
Proof.
  intros H. apply elem_of_list_to_map_2 in H.
  repeat (apply elem_of_cons in H; destruct H as [H|H];
          [injection H as -> ->; vm_compute; reflexivity|]).
  apply elem_of_nil in H. contradiction.
Qed.

(** X22.  The normal form of a language is looked up in [LANGUAGE_CODES]
    under the language in lower case: a name that the table holds gives
    its code (for [spanish], the code [es]), and anything else gives the
    language in lower case.  No code of the table is a name of it; so for
    a [lower] that is idempotent and leaves the codes of the table as they
    are, as that of Python does, the normal form is its own normal
    form. *)
Theorem normalize_table_lookup language :
  let code := normalize lower language in
  (∀ c, LANGUAGE_CODES !! lower language = Some c → code = c) ∧
  (LANGUAGE_CODES !! lower language = None → code = lower language) ∧
  (lower language = "spanish" → code = "es") ∧
  (lower language = "hindi" → code = "hi") ∧
  (∀ c, LANGUAGE_CODES !! lower language = Some c → LANGUAGE_CODES !! c = None) ∧
  ((∀ s, lower (lower s) = lower s) →
   (∀ name c, LANGUAGE_CODES !! name = Some c → lower c = c) →
   normalize lower code = code).
Proof.
  intros code. subst code. unfold normalize.
  split; [intros c ->; reflexivity|].
  split; [intros ->; reflexivity|].
  split; [intros ->; vm_compute; reflexivity|].
  split; [intros ->; vm_compute; reflexivity|].
  split; [intros c H; exact (LANGUAGE_CODES_codes_are_not_names _ _ H)|].
  intros Hidem Hcodes.
  destruct (LANGUAGE_CODES !! lower language) as [c|] eqn:E; simpl.
  - rewrite (Hcodes _ _ E).
    rewrite (LANGUAGE_CODES_codes_are_not_names _ _ E). reflexivity.
  - rewrite Hidem, E. reflexivity.
Qed.

(** X23.  [translate_text] always answers the text it was given as the
    original and calls the client at most once.  For a text that is
    empty or white space it answers the text itself as the translation
    and calls nobody; without a client it answers the text behind the
    target code in brackets; a call of the client carries the normal
    forms of the languages, with no source language when that is [auto];
    and an exception of the client comes back as the translation text. *)
Theorem translate_text_spec text source_language target_language :
  let r := translate_text lower translate_client text source_language target_language in
  let source_code := normalize lower source_language in
  let target_code := normalize lower target_language in
  r.1.1.1 = text ∧
  length r.2 ≤ 1 ∧
  (StreamingTranscriber.strip text = "" → r = ((text, text, source_code), [])) ∧
  (StreamingTranscriber.strip text ≠ "" → translate_client = None →
     r = ((text, "[" +:+ target_code +:+ "] " +:+ text, source_code), [])) ∧
  (∀ translate, StreamingTranscriber.strip text ≠ "" → translate_client = Some translate →
     let source := if decide (source_code = "auto") then None else Some source_code in
     r.2 = [(text, target_code, source)] ∧
     (∀ message, translate text target_code source = Raised message →
        r.1 = (text, "Translation error: " +:+ message, source_code)) ∧
     (∀ translated detected,
        translate text target_code source = Translated translated detected →
        r.1 = (text, translated, default source_code detected))).
Proof.
  intros r source_code target_code. subst r. unfold translate_text.
  fold source_code target_code.
  destruct (decide (StreamingTranscriber.strip text = "")) as [Hb|Hb]; simpl.
  - split; [reflexivity|]. split; [lia|]. split; [reflexivity|].
    split; [contradiction|]. intros; contradiction.
  - destruct translate_client as [translate|]; simpl.
    + destruct (translate text target_code _) as [translated detected|message] eqn:A;
        simpl; (split; [reflexivity|]); (split; [lia|]);
        (split; [contradiction|]); (split; [discriminate|]);
        intros tr _ Htr; injection Htr as <-; rewrite A;
        (split; [reflexivity|]); split; intros; congruence.
    + split; [reflexivity|]. split; [lia|]. split; [contradiction|].
      split; [reflexivity|]. discriminate.
Qed.

End translation_facts.

Section text_to_speech_facts.
Import TextToSpeech.
Variable lower : string → string.
Variable synthesize : string → string → option bytes.

Lemma select_voice_truthy language voice :
  select_voice lower language (if Main.truthy voice then voice else None) =
  select_voice lower language voice.
Proof.
  unfold select_voice. destruct (Main.truthy voice) eqn:T; [rewrite T; reflexivity|].
  reflexivity.
Qed.

(** X24.  [text_to_speech] always answers the media type audio/mp3 and
    attempts the synthesis at most once, with the text and the voice
    chosen: the voice asked for when it is given and not empty; otherwise
    the voice that [DEFAULT_VOICES] holds for the language in lower case
    (for [es], the voice es-ES-AlvaroNeural), and the English voice for a
    language that the table does not hold.  For a text that is empty or
    white space it attempts nothing; then, and when the synthesis raises,
    the audio answered is empty. *)
Theorem text_to_speech_spec text language voice :
  let r := text_to_speech lower synthesize text language voice in
  let chosen := select_voice lower language voice in
  r.1.2 = "audio/mp3" ∧
  (StreamingTranscriber.strip text = "" → r = (([], "audio/mp3"), [])) ∧
  (StreamingTranscriber.strip text ≠ "" →
     r.2 = [(text, chosen)] ∧
     r.1.1 = default [] (synthesize text chosen)) ∧
  (Main.truthy voice = true → chosen = default "" voice) ∧
  (Main.truthy voice = false →
     (∀ v, DEFAULT_VOICES !! lower language = Some v → chosen = v) ∧
     (DEFAULT_VOICES !! lower language = None → chosen = "en-US-ChristopherNeural") ∧
     (lower language = "es" → chosen = "es-ES-AlvaroNeural")).
Proof.
  intros r chosen. subst r. unfold text_to_speech. fold chosen.
  split; [|split; [|split; [|split]]].
  - destruct (decide _); [reflexivity|]. destruct (synthesize text chosen); reflexivity.
  - intros Hb. destruct (decide _); [reflexivity | contradiction].
  - intros Hb. destruct (decide _); [contradiction|].
    destruct (synthesize text chosen); simpl; auto.
  - intros T. subst chosen. unfold select_voice. rewrite T. reflexivity.
  - intros T. subst chosen. unfold select_voice. rewrite T.
    split; [|split].
    + intros v ->. reflexivity.
    + intros ->. reflexivity.
    + intros ->. vm_compute. reflexivity.
Qed.

(** X25.  The route [/speak] answers audio only when there is some: the
    content of a response is never empty, it is what the synthesiser
    produced for the text and the chosen voice (an empty voice in the
    request counts as none), and its media type is audio/mp3.  A text
    that is empty or white space, a failure of the synthesiser and empty
    audio all end in the error 500. *)
Theorem speak_never_answers_empty_audio text language voice :
  match speak lower synthesize text language voice with
  | Response content media_type =>
      content ≠ [] ∧ media_type = "audio/mp3" ∧
      StreamingTranscriber.strip text ≠ "" ∧
      synthesize text (select_voice lower language voice) = Some content
  | HTTPException500 =>
      StreamingTranscriber.strip text = "" ∨
      synthesize text (select_voice lower language voice) = None ∨
      synthesize text (select_voice lower language voice) = Some []
  end.
Proof.
  unfold speak, text_to_speech. rewrite select_voice_truthy.
  destruct (decide (StreamingTranscriber.strip text = "")) as [Hb|Hb]; simpl; [auto|].
  destruct (synthesize text (select_voice lower language voice)) as [[|b bs]|] eqn:S; simpl;
    auto; try (split; [discriminate | auto]).
Qed.

End text_to_speech_facts.

Section more_examples.
Import SessionManager.

Lemma run_keyed history : ∀ m, keyed m → keyed (run history m).
Proof.
  induction history as [|[now o] history IH]; intros m K; simpl; [exact K|].
  apply IH. apply step_keyed. exact K.
Qed.

End more_examples.

Lemma join_keeps_previous_membership_witness :
  let m1 := (SessionManager.join_session 30 Examples.uuid2 1 Examples.alice
               MoreExamples.two_sessions).2 in
  let m2 := (SessionManager.leave_session 40 1 m1).2 in
  SessionManager.client_sessions m1 !! 1 = Some Examples.uuid2 ∧
  SessionManager.client_sessions m2 !! 1 = None ∧
  SessionManager.get_session_participants Examples.uuid1 m2 = [1].
Proof.
  intros m1 m2.
  edestruct (join_keeps_previous_membership 30 40 Examples.uuid1 Examples.uuid2 1
               Examples.alice MoreExamples.two_sessions) as (A & _ & B).
  - apply run_keyed. apply init_keyed.
  - discriminate.
  - vm_compute. reflexivity.
  - vm_compute. eauto.
  - vm_compute. reflexivity.
  - destruct B as (_ & B1 & B2); [discriminate|].
    split; [exact A|]. split; [exact B1|].
    unfold SessionManager.get_session_participants, SessionManager.get_session.
    fold m1 m2 in B2. rewrite B2. vm_compute. reflexivity.
Defined.

Lemma rejoin_same_session_witness :
  (SessionManager.join_session 30 Examples.uuid1 1 Examples.bob
     MoreExamples.two_sessions).1 = true.
Proof.
  edestruct (rejoin_same_session 30 Examples.uuid1 1 Examples.bob
               MoreExamples.two_sessions) as [_ H].
  - vm_compute. reflexivity.
  - vm_compute. eauto.
  - apply H. vm_compute. reflexivity.
Defined.

Lemma endpoint_never_starts_recognition_witness :
  let x := StreamingTranscriber.set_language "fr"
             (StreamingTranscriber.add_audio_chunk Examples.chunk_b
                (StreamingTranscriber.add_audio_chunk Examples.chunk_a
                   StreamingTranscriber.init)) in
  StreamingTranscriber.get_transcriptions StreamingTranscriber.Suspended x =
    (StreamingTranscriber.StopIteration, StreamingTranscriber.Returned, x).
Proof.
  intros x.
  apply (endpoint_never_starts_recognition Examples.failing_whisper 0
           MoreExamples.one_speaker 1 x).
  vm_compute. reflexivity.
Defined.

Lemma config_and_transcriber_language_agree_witness :
  ∃ x, Main.active_transcribers
         (Main.run Examples.failing_whisper 0 MoreExamples.one_speaker Main.init) !! 1
       = Some x ∧
       StreamingTranscriber.source_language x = "fr".
Proof.
  apply (config_and_transcriber_language_agree Examples.failing_whisper 0
           MoreExamples.one_speaker 1
           (Main.mkConfig "fr" "es" "speaker" "1" None "User-1")).
  vm_compute. reflexivity.
Defined.

Lemma accept_then_cleanup_restores_witness :
  let srv' := Main.cleanup Examples.failing_whisper 0 1 (Main.accept 1 Main.init) in
  Main.active_connections srv' = [] ∧
  Main.message_manager srv' = ClientMessageManager.init ∧
  SessionManager.cleanup_task (Main.session_manager srv') = true ∧
  Main.active_connections (Main.accept_raises 1 Main.init) = [1].
Proof.
  assert (U : EndpointState.unknown 1 Main.init).
  { repeat split; try reflexivity. intros H. inversion H. }
  destruct (accept_then_cleanup_restores Examples.failing_whisper 0 1 Main.init U)
    as ((A & _ & _ & B) & (_ & _ & C & _) & (D & _)).
  split; [exact A|]. split; [exact B|]. split; [exact C | exact D].
Defined.

Lemma audio_frame_is_queued_witness :
  let srv := Main.run Examples.failing_whisper 0 MoreExamples.one_listener Main.init in
  let srv' := Main.handle_bytes 1
                (Main.mkConfig "en" "es" "listener" "1" None "User-1")
                Examples.chunk_a srv in
  Main.active_transcribers srv' = Main.active_transcribers srv ∧
  Main.effects srv' =
    Main.effects srv ++ [Main.Sent 1 (Main.role_info "listener" 1)].
Proof.
  intros srv srv'.
  edestruct (audio_frame_is_queued 1
               (Main.mkConfig "en" "es" "listener" "1" None "User-1")
               Examples.chunk_a
               (MessageQueue.mk [] 100 false [Main.process_audio 1] false) srv)
    as (_ & _ & A & B).
  - discriminate.
  - discriminate.
  - vm_compute. reflexivity.
  - split; [exact A | exact B].
Defined.

